(** * The Ronin wallet connector: a shallow embedding and its properties

    The development embeds [RoninConnector] (the class of
    [src/pages/_app.tsx]) as functions over an explicit world: the
    connector's private fields, the browser globals it probes, the persisted
    key-value store and the log of every call it makes on an external
    collaborator.  Asynchronous methods are computations in a state and
    exception monad in which a thrown value leaves the state as it was at
    the throw; the one background task of the class, [#initProvider], is a
    task on a heap of promises that a scheduler resumes step by step. *)

From Stdlib Require Import ZArith Lia Bool Ascii String HexString.
From stdpp Require Import gmap strings list fin_maps.

Local Open Scope string_scope.
Local Open Scope Z_scope.
Local Open Scope list_scope.

(** ** JavaScript strings and the literal regular expressions *)

Module Js.

(** Canonicalisation of one code unit under the [i] flag of a regular
    expression without the [u] flag: ASCII letters fold, nothing else
    folds onto an ASCII letter. *)
Definition canonicalize (c : ascii) : ascii :=
  let n := nat_of_ascii c in
  if ((97 <=? n)%nat && (n <=? 122)%nat)%bool
  then ascii_of_nat (n - 32) else c.

Definition same_char_i (a b : ascii) : bool :=
  if ascii_dec (canonicalize a) (canonicalize b) then true else false.

(** [starts_with_i pat s]: [pat] matches at the first position of [s]. *)
Fixpoint starts_with_i (pat s : string) : bool :=
  match pat, s with
  | EmptyString, _ => true
  | String _ _, EmptyString => false
  | String p pat', String c s' => same_char_i p c && starts_with_i pat' s'
  end.

(** [/pat/i.test(s)] for a pattern [pat] made of literal characters. *)
Fixpoint test_i (pat s : string) : bool :=
  starts_with_i pat s ||
  match s with
  | EmptyString => false
  | String _ s' => test_i pat s'
  end.

(** What the two patterns are said to do: some part of [s] equals [pat]
    up to the case of its letters. *)
Fixpoint fold_case (s : string) : string :=
  match s with
  | EmptyString => EmptyString
  | String c s' => String (canonicalize c) (fold_case s')
  end.

Definition contains_i (pat s : string) : Prop :=
  exists before part after,
    s = before +:+ part +:+ after /\ fold_case part = fold_case pat.

(** [RegExp.prototype.test] converts its argument with [ToString]; a
    missing [message] is tested as the text [undefined]. *)
Definition to_string (m : option string) : string :=
  match m with
  | Some s => s
  | None => "undefined"
  end.

(** Truthiness of a string. *)
Definition truthy_string (s : string) : bool :=
  match s with
  | EmptyString => false
  | String _ _ => true
  end.

(** [s.split(sep)] for a one-character separator. *)
Fixpoint split_on (sep : ascii) (s : string) : list string :=
  match s with
  | EmptyString => [EmptyString]
  | String c s' =>
      if ascii_dec c sep then EmptyString :: split_on sep s'
      else match split_on sep s' with
           | [] => [String c EmptyString]
           | piece :: rest => String c piece :: rest
           end
  end.

(** JavaScript numbers, as far as the connector meets them: chain ids and
    the not-a-number that [parseInt] and [Number] answer on junk. *)
Inductive number :=
| NaN
| Num (z : Z).

(** [x === z] for a number [x] and an integer [z]. *)
Definition strict_eq (x : number) (z : Z) : bool :=
  match x with
  | NaN => false
  | Num y => y =? z
  end.

(** Values carried by emitted events and by request parameters. *)
#[warnings="-register-all"]
Inductive value :=
| Undefined
| Bool (b : bool)
| Number (n : number)
| Str (s : string)
| Arr (items : list value)
| Obj (fields : list (string * value)).

End Js.

(** ** Thrown values *)

(** Anything can be thrown in JavaScript.  [ErrorObject] stands for an
    error object made outside the connector (a transport error, a
    [TypeError] of the runtime); the two last constructors are the errors
    the connector itself builds, each around the value it caught. *)
Inductive Exn :=
| ThrownNullish
| ThrownString (s : string)
| ErrorObject (name : string) (message : option string)
| UserRejectedRequestError (cause : Exn)
| SwitchChainError (cause : Exn).

Definition Error (message : string) : Exn := ErrorObject "Error" (Some message).
Definition TypeError (message : string) : Exn :=
  ErrorObject "TypeError" (Some message).
Definition ReferenceError (message : string) : Exn :=
  ErrorObject "ReferenceError" (Some message).

(** The spec's names for the connector's errors. *)
Definition ChainNotFound : Exn :=
  SwitchChainError (Error "chain not found on connector.").
Definition UserRejected : Exn -> Exn := UserRejectedRequestError.
Definition SwitchChainFailed : Exn -> Exn := SwitchChainError.

Definition is_nullish (e : Exn) : bool :=
  match e with
  | ThrownNullish => true
  | _ => false
  end.

Definition is_thrown_string (e : Exn) : option string :=
  match e with
  | ThrownString s => Some s
  | _ => None
  end.


(** ** Configuration

    [Chain] keeps the fields of wagmi's chain record the connector reads. *)

Record Chain := {
  chain_id : Z;
  chain_name : string;
  nativeCurrency : string * string * Z;
  rpcUrls_default_http : list string;
  blockExplorers_default_url : option string
}.

(** The two chain records of the repository. *)
Definition ronin : Chain := {|
  chain_id := 2020;
  chain_name := "Ronin mainnet";
  nativeCurrency := ("RON", "RON", 18);
  rpcUrls_default_http := ["https://api.roninchain.com/rpc"];
  blockExplorers_default_url := Some "https://app.roninchain.com/"
|}.

Definition saigon : Chain := {|
  chain_id := 2021;
  chain_name := "Saigon Testnet";
  nativeCurrency := ("RON", "RON", 18);
  rpcUrls_default_http := ["https://saigon-testnet.roninchain.com/rpc"];
  blockExplorers_default_url := Some "https://saigon-explorer.roninchain.com/"
|}.

(** [RoninOptions]; an absent [shimDisconnect] is [None]. *)
Record RoninOptions := {
  projectId : string;
  metadata : option string;
  relayUrl : option string;
  shimDisconnect : option bool
}.

(** What the constructor receives: [chains] is the list the base class
    leaves in [this.chains]. *)
Record Config := {
  chains : list Chain;
  options : RoninOptions
}.

(** [this.options.shimDisconnect] after the constructor's
    [{ shimDisconnect: true, ...config.options }]. *)
Definition options_shimDisconnect (cfg : Config) : bool :=
  match shimDisconnect (options cfg) with
  | Some b => b
  | None => true
  end.

Definition id_ : string := "roninWallet".
Definition shimDisconnectKey : string := id_ +:+ ".shimDisconnect".
Definition NAMESPACE : string := "eip155".
Definition REQUESTED_CHAINS_KEY : string := "requestedChains".
Definition ADD_ETH_CHAIN_METHOD : string := "wallet_addEthereumChain".

(** ** The world around the connector *)

(** The five handlers the connector registers. *)
Inductive Handler :=
| onAccountsChangedH
| onChainChangedH
| onDisconnectH
| onDisplayUriH
| onConnectH.

(** The arguments of [EthereumProvider.init]. *)
Record InitArgs := {
  showQrModal : bool;
  init_projectId : string;
  init_chains : list Z;
  optionalChains : option (list Z);
  rpcMap : list (Z * option string);
  init_metadata : option string;
  init_relayUrl : option string
}.

(** Every call the connector makes on something it does not own. *)
Inductive Effect :=
| Emit (event : string) (payload : Js.value)
| WindowOpen (url target features : string)
| RoninAddEventListener (event : string) (h : Handler)
| RoninRemoveEventListener (event : string) (h : Handler)
| InjectedRequest (method : string) (params : list Js.value)
| RelayRequest (method : string) (params : list Js.value)
| RelayConnect
| RelayEnable
| RelayDisconnect
| RelayOn (event : string) (h : Handler)
| RelayRemoveListener (event : string) (h : Handler)
| ImportEthereumProvider
| EthereumProviderInit (args : InitArgs).

(** One namespace of a relay session, as [normalizeNamespaces] returns it. *)
Record Namespace := {
  ns_chains : option (list string);
  ns_methods : list string
}.

Record Session := {
  namespaces : option (gmap string Namespace)
}.

(** The fields of the WalletConnect provider object the connector reads. *)
Record RelayState := {
  session : option Session;
  accounts : list string;
  relay_chainId : Js.number
}.

(** [window.ronin]: only whether its provider already has [on] and
    [removeListener] matters to the connector. *)
Record Ronin := {
  provider_on : bool;
  provider_removeListener : bool
}.

Record Window := {
  win_ronin : option Ronin
}.

(** What the store holds under the connector's two keys. *)
Inductive StoredValue :=
| StoredBool (b : bool)
| StoredChains (ids : list Z).

(** A promise made by [#initProvider]: where its task is suspended, or how
    it settled. *)
Inductive TaskState :=
| AwaitingImport
| AwaitingInit (args : InitArgs)
| Settled (rejection : option Exn).

(** What [getProvider] hands out. *)
Inductive ProviderRef :=
| InjectedProvider
| RelayProvider (object : nat)
| NoProvider.

Record World := {
  window : option Window;
  storage : option (gmap string StoredValue);
  relay : RelayState;
  tasks : list TaskState;
  trace : list Effect;
  isExtension : bool;
  provider : option nat;
  initProviderPromise : option nat
}.

Definition set_window (x : option Window) (w : World) : World :=
  {| window := x; storage := storage w; relay := relay w; tasks := tasks w;
     trace := trace w; isExtension := isExtension w; provider := provider w;
     initProviderPromise := initProviderPromise w |}.

Definition set_storage (x : option (gmap string StoredValue)) (w : World) : World :=
  {| window := window w; storage := x; relay := relay w; tasks := tasks w;
     trace := trace w; isExtension := isExtension w; provider := provider w;
     initProviderPromise := initProviderPromise w |}.

Definition set_relay (x : RelayState) (w : World) : World :=
  {| window := window w; storage := storage w; relay := x; tasks := tasks w;
     trace := trace w; isExtension := isExtension w; provider := provider w;
     initProviderPromise := initProviderPromise w |}.

Definition set_tasks (x : list TaskState) (w : World) : World :=
  {| window := window w; storage := storage w; relay := relay w; tasks := x;
     trace := trace w; isExtension := isExtension w; provider := provider w;
     initProviderPromise := initProviderPromise w |}.

Definition set_trace (x : list Effect) (w : World) : World :=
  {| window := window w; storage := storage w; relay := relay w; tasks := tasks w;
     trace := x; isExtension := isExtension w; provider := provider w;
     initProviderPromise := initProviderPromise w |}.

Definition set_isExtension (x : bool) (w : World) : World :=
  {| window := window w; storage := storage w; relay := relay w; tasks := tasks w;
     trace := trace w; isExtension := x; provider := provider w;
     initProviderPromise := initProviderPromise w |}.

Definition set_provider (x : option nat) (w : World) : World :=
  {| window := window w; storage := storage w; relay := relay w; tasks := tasks w;
     trace := trace w; isExtension := isExtension w; provider := x;
     initProviderPromise := initProviderPromise w |}.

Definition set_initProviderPromise (x : option nat) (w : World) : World :=
  {| window := window w; storage := storage w; relay := relay w; tasks := tasks w;
     trace := trace w; isExtension := isExtension w; provider := provider w;
     initProviderPromise := x |}.

(** ** Asynchronous computations

    An [async] function run to its end: it returns or throws, and the world
    keeps whatever it did before throwing. *)

Inductive Outcome (A : Type) :=
| Return (a : A)
| Throw (e : Exn).
Arguments Return {A} a.
Arguments Throw {A} e.

Definition Async (A : Type) : Type := World -> Outcome A * World.

Definition ret {A} (a : A) : Async A := fun w => (Return a, w).
Definition throw {A} (e : Exn) : Async A := fun w => (Throw e, w).

Definition bind {A B} (m : Async A) (k : A -> Async B) : Async B :=
  fun w =>
    match m w with
    | (Return a, w') => k a w'
    | (Throw e, w') => (Throw e, w')
    end.

Declare Scope async_scope.
Delimit Scope async_scope with async.
Notation "x <- m ;; k" := (bind m (fun x => k))
  (at level 100, m at next level, right associativity) : async_scope.
Notation "m ;; k" := (bind m (fun _ => k))
  (at level 100, right associativity) : async_scope.
Local Open Scope async_scope.

(** [try { body } catch (e) { handler e }] *)
Definition try_catch {A} (body : Async A) (handler : Exn -> Async A) : Async A :=
  fun w =>
    match body w with
    | (Return a, w') => (Return a, w')
    | (Throw e, w') => handler e w'
    end.

(** [try { body } finally { fin }]: [fin] runs on both exits, and a throw
    of [fin] replaces the outcome of [body]. *)
Definition try_finally {A} (body : Async A) (fin : Async unit) : Async A :=
  fun w =>
    match body w with
    | (r, w') =>
        match fin w' with
        | (Return _, w'') => (r, w'')
        | (Throw e, w'') => (Throw e, w'')
        end
    end.

Definition when (c : bool) (m : Async unit) : Async unit :=
  if c then m else ret tt.

Definition gets {A} (f : World -> A) : Async A := fun w => (Return (f w), w).
Definition modify (f : World -> World) : Async unit := fun w => (Return tt, f w).

(** A call on a collaborator is appended to the log. *)
Definition perform (e : Effect) : Async unit :=
  modify (fun w => set_trace (trace w ++ [e]) w).

(** An external answer: a thrown value or a result. *)
Definition lift_result {A} (r : Exn + A) : Async A :=
  match r with
  | inl e => throw e
  | inr a => ret a
  end.

(** [this.emit(event, payload)] *)
Definition emit (event : string) (payload : Js.value) : Async unit :=
  perform (Emit event payload).

(** Reading the global [window]: a [ReferenceError] where none is declared. *)
Definition the_window : Async Window :=
  fun w =>
    match window w with
    | Some win => (Return win, w)
    | None => (Throw (ReferenceError "window is not defined"), w)
    end.

(** ** What the connector's collaborators do

    The behaviour of everything outside the class: the libraries it
    imports, the two transports and the store's reads. *)
Record Env := {
  (** [isMobile()], read once when the module loads *)
  mobile : bool;
  (** viem's [getAddress], [numberToHex] and the [message] viem gives to
      one of its own errors *)
  getAddress : Js.value -> Exn + string;
  numberToHex : Z -> Exn + string;
  viem_message : Exn -> string;
  (** the built-ins [Number] and [parseInt] *)
  js_Number : Js.value -> Js.number;
  js_parseInt : string -> Js.number;
  (** [import('@walletconnect/ethereum-provider')] and
      [EthereumProvider.init], which answers the new provider's state *)
  import_ethereum_provider : option Exn;
  EthereumProvider_init : InitArgs -> Exn + RelayState;
  (** the relay provider's methods *)
  relay_connect : RelayState -> Exn + RelayState;
  relay_enable : RelayState -> Exn + (list string * RelayState);
  relay_disconnect : RelayState -> Exn + RelayState;
  relay_request :
    RelayState -> string -> list Js.value -> Exn + (Js.value * RelayState);
  (** the injected provider's [request] *)
  injected_request : string -> list Js.value -> Exn + Js.value;
  (** a store whose [getItem] throws *)
  storage_getItem_fault : option Exn
}.

(** The relay fields before any provider object exists. *)
Definition no_relay : RelayState :=
  {| session := None; accounts := []; relay_chainId := Js.NaN |}.

(** ** The connector *)

Section Connector.

Variable env : Env.
Variable cfg : Config.

(** *** Errors *)

(** [error?.message] *)
Definition message_of (error : Exn) : option string :=
  match error with
  | ThrownNullish => None
  | ThrownString _ => None
  | ErrorObject _ m => m
  | UserRejectedRequestError _ | SwitchChainError _ =>
      Some (viem_message env error)
  end.

(** *** The store *)

(** [this.storage?.getItem(key)] *)
Definition storage_getItem (key : string) : Async (option StoredValue) :=
  fun w =>
    match storage w with
    | None => (Return None, w)
    | Some m =>
        match storage_getItem_fault env with
        | Some e => (Throw e, w)
        | None => (Return (m !! key), w)
        end
    end.

(** [this.storage?.setItem(key, value)] *)
Definition storage_setItem (key : string) (v : StoredValue) : Async unit :=
  modify (fun w => set_storage (insert key v <$> storage w) w).

(** [this.storage?.removeItem(key)] *)
Definition storage_removeItem (key : string) : Async unit :=
  modify (fun w => set_storage (delete key <$> storage w) w).

Definition truthy_stored (v : option StoredValue) : bool :=
  match v with
  | None => false
  | Some (StoredBool b) => b
  | Some (StoredChains _) => true
  end.

Definition setRequestedChainsIds (v : StoredValue) : Async unit :=
  storage_setItem REQUESTED_CHAINS_KEY v.

Definition getRequestedChainsIds : Async StoredValue :=
  v <- storage_getItem REQUESTED_CHAINS_KEY ;;
  ret (default (StoredChains []) v).

(** [requestedChains.push(chainId)] *)
Definition push (requestedChains : StoredValue) (chainId : Z) : Async StoredValue :=
  match requestedChains with
  | StoredChains ids => ret (StoredChains (ids ++ [chainId]))
  | StoredBool _ => throw (TypeError "requestedChains.push is not a function")
  end.

(** *** The session's namespace *)

(** [chain.split(':')[1] || ''] *)
Definition reference_of (chain : string) : string :=
  match Js.split_on ":" chain !! 1%nat with
  | Some piece => if Js.truthy_string piece then piece else ""
  | None => ""
  end.

Definition getNamespaceChainsIds : Async (list Js.number) :=
  fun w =>
    match provider w with
    | None => (Return [], w)
    | Some _ =>
        match session (relay w) ≫= namespaces with
        | None => (Return [], w)
        | Some normalizedNamespaces =>
            let chainIds :=
              map (fun chain => js_parseInt env (reference_of chain)) <$>
                ((normalizedNamespaces !! NAMESPACE) ≫= ns_chains) in
            (Return (default [] chainIds), w)
        end
    end.

Definition getNamespaceMethods : Async (list string) :=
  fun w =>
    match provider w with
    | None => (Return [], w)
    | Some _ =>
        match session (relay w) ≫= namespaces with
        | None => (Return [], w)
        | Some normalizedNamespaces =>
            let methods := ns_methods <$> normalizedNamespaces !! NAMESPACE in
            (Return (default [] methods), w)
        end
    end.

Definition includes_number (l : list Js.number) (z : Z) : bool :=
  existsb (fun x => Js.strict_eq x z) l.

Definition includes_string (l : list string) (s : string) : bool :=
  existsb (String.eqb s) l.

(** *** Listeners on the relay provider *)

Definition removeListeners : Async unit :=
  p <- gets provider ;;
  match p with
  | None => ret tt
  | Some _ =>
      perform (RelayRemoveListener "accountsChanged" onAccountsChangedH) ;;
      perform (RelayRemoveListener "chainChanged" onChainChangedH) ;;
      perform (RelayRemoveListener "disconnect" onDisconnectH) ;;
      perform (RelayRemoveListener "session_delete" onDisconnectH) ;;
      perform (RelayRemoveListener "display_uri" onDisplayUriH) ;;
      perform (RelayRemoveListener "connect" onConnectH)
  end.

Definition setupListeners : Async unit :=
  p <- gets provider ;;
  match p with
  | None => ret tt
  | Some _ =>
      removeListeners ;;
      perform (RelayOn "accountsChanged" onAccountsChangedH) ;;
      perform (RelayOn "chainChanged" onChainChangedH) ;;
      perform (RelayOn "disconnect" onDisconnectH) ;;
      perform (RelayOn "session_delete" onDisconnectH) ;;
      perform (RelayOn "display_uri" onDisplayUriH) ;;
      perform (RelayOn "connect" onConnectH)
  end.

(** *** Building the relay provider *)

Definition init_args : list Z -> option InitArgs :=
  fun ids =>
    match ids with
    | [] => None
    | defaultChain :: optionalChains =>
        if defaultChain =? 0 then None
        else Some {|
          showQrModal := false;
          init_projectId := projectId (options cfg);
          init_chains := [defaultChain];
          optionalChains :=
            match optionalChains with
            | [] => None
            | _ :: _ => Some optionalChains
            end;
          rpcMap :=
            map (fun chain => (chain_id chain, head (rpcUrls_default_http chain)))
                (chains cfg);
          init_metadata := metadata (options cfg);
          init_relayUrl := relayUrl (options cfg)
        |}
    end.

(** [#initProvider], from its call to its first [await]: the dynamic
    import is requested and the task is parked on a new promise. *)
Definition initProvider (w : World) : nat * World :=
  let w1 := set_trace (trace w ++ [ImportEthereumProvider]) w in
  (length (tasks w1), set_tasks (tasks w1 ++ [AwaitingImport]) w1).

(** [#initProvider] resumed once at the [await] where task [i] is parked. *)
Definition resume (i : nat) (w : World) : World :=
  match tasks w !! i with
  | Some AwaitingImport =>
      match import_ethereum_provider env with
      | Some e => set_tasks (<[i := Settled (Some e)]> (tasks w)) w
      | None =>
          match init_args (map chain_id (chains cfg)) with
          | None => set_tasks (<[i := Settled None]> (tasks w)) w
          | Some args =>
              set_tasks (<[i := AwaitingInit args]> (tasks w))
                (set_trace (trace w ++ [EthereumProviderInit args]) w)
          end
      end
  | Some (AwaitingInit args) =>
      match EthereumProvider_init env args with
      | inl e => set_tasks (<[i := Settled (Some e)]> (tasks w)) w
      | inr st =>
          set_tasks (<[i := Settled None]> (tasks w))
            (set_relay st (set_provider (Some i) w))
      end
  | Some (Settled _) | None => w
  end.

(** [#createProvider]: the promise it answers with is the stored one. *)
Definition createProvider (w : World) : option nat * World :=
  let w1 :=
    match initProviderPromise w, window w with
    | None, Some _ =>
        let '(p, w') := initProvider w in set_initProviderPromise (Some p) w'
    | _, _ => w
    end in
  (initProviderPromise w1, w1).

(** [await promise]: the caller is suspended until the task behind the
    promise has run through its two suspension points. *)
Definition await (promise : option nat) : Async unit :=
  match promise with
  | None => ret tt
  | Some i =>
      fun w =>
        let w' := resume i (resume i w) in
        match tasks w' !! i with
        | Some (Settled None) => (Return tt, w')
        | Some (Settled (Some e)) => (Throw e, w')
        | _ => (Throw (Error "promise never settles"), w')
        end
  end.

(** *** Members of the object [getProvider] answered

    The injected provider has the members of the EIP-1193 interface and no
    other; [NoProvider] is the [undefined] left in [#provider] when no
    relay provider was built. *)

Definition not_a_function (member : string) : Exn :=
  TypeError ("provider." +:+ member +:+ " is not a function").

Definition undefined_has_no (member : string) : Exn :=
  TypeError ("Cannot read properties of undefined (reading '" +:+ member +:+ "')").

(** [provider.request({ method, params })] *)
Definition request (p : ProviderRef) (method : string) (params : list Js.value)
  : Async Js.value :=
  match p with
  | InjectedProvider =>
      perform (InjectedRequest method params) ;;
      lift_result (injected_request env method params)
  | RelayProvider _ =>
      perform (RelayRequest method params) ;;
      fun w =>
        match relay_request env (relay w) method params with
        | inl e => (Throw e, w)
        | inr (v, st) => (Return v, set_relay st w)
        end
  | NoProvider => throw (undefined_has_no "request")
  end.

(** [provider.session] *)
Definition provider_session (p : ProviderRef) : Async (option Session) :=
  match p with
  | InjectedProvider => ret None
  | RelayProvider _ => gets (fun w => session (relay w))
  | NoProvider => throw (undefined_has_no "session")
  end.

(** [provider.accounts] *)
Definition provider_accounts (p : ProviderRef) : Async Js.value :=
  match p with
  | InjectedProvider => ret Js.Undefined
  | RelayProvider _ => gets (fun w => Js.Arr (map Js.Str (accounts (relay w))))
  | NoProvider => throw (undefined_has_no "accounts")
  end.

(** [provider.chainId] *)
Definition provider_chainId (p : ProviderRef) : Async Js.value :=
  match p with
  | InjectedProvider => ret Js.Undefined
  | RelayProvider _ => gets (fun w => Js.Number (relay_chainId (relay w)))
  | NoProvider => throw (undefined_has_no "chainId")
  end.

(** [provider.connect()] *)
Definition provider_connect (p : ProviderRef) : Async unit :=
  match p with
  | InjectedProvider => throw (not_a_function "connect")
  | RelayProvider _ =>
      perform RelayConnect ;;
      fun w =>
        match relay_connect env (relay w) with
        | inl e => (Throw e, w)
        | inr st => (Return tt, set_relay st w)
        end
  | NoProvider => throw (undefined_has_no "connect")
  end.

(** [provider.enable()] *)
Definition provider_enable (p : ProviderRef) : Async Js.value :=
  match p with
  | InjectedProvider => throw (not_a_function "enable")
  | RelayProvider _ =>
      perform RelayEnable ;;
      fun w =>
        match relay_enable env (relay w) with
        | inl e => (Throw e, w)
        | inr (accs, st) => (Return (Js.Arr (map Js.Str accs)), set_relay st w)
        end
  | NoProvider => throw (undefined_has_no "enable")
  end.

(** [provider.disconnect()] *)
Definition provider_disconnect (p : ProviderRef) : Async unit :=
  match p with
  | InjectedProvider => throw (not_a_function "disconnect")
  | RelayProvider _ =>
      perform RelayDisconnect ;;
      fun w =>
        match relay_disconnect env (relay w) with
        | inl e => (Throw e, w)
        | inr st => (Return tt, set_relay st w)
        end
  | NoProvider => throw (undefined_has_no "disconnect")
  end.

(** [accounts[0]] *)
Definition first_of (accounts : Js.value) : Async Js.value :=
  match accounts with
  | Js.Undefined => throw (undefined_has_no "0")
  | Js.Arr items => ret (default Js.Undefined (head items))
  | Js.Str (String c _) => ret (Js.Str (String c EmptyString))
  | Js.Obj fields => ret (default Js.Undefined (snd <$> find (fun f => String.eqb (fst f) "0") fields))
  | _ => ret Js.Undefined
  end.

(** [window.ronin?.roninEvent.addEventListener(event, h)] and its twin *)
Definition ronin_addEventListener (event : string) (h : Handler) : Async unit :=
  win <- the_window ;;
  match win_ronin win with
  | Some _ => perform (RoninAddEventListener event h)
  | None => ret tt
  end.

Definition ronin_removeEventListener (event : string) (h : Handler) : Async unit :=
  win <- the_window ;;
  match win_ronin win with
  | Some _ => perform (RoninRemoveEventListener event h)
  | None => ret tt
  end.

(** *** [getProvider] and [switchChain]

    The two methods call each other, [switchChain] always without a chain
    id; [getProvider_with] is [getProvider] with the call of [switchChain]
    left open. *)

Definition patched : Ronin :=
  {| provider_on := true; provider_removeListener := true |}.

(** [if (!this.#provider) await this.#createProvider()] *)
Definition ensure_provider : Async unit :=
  p <- gets provider ;;
  match p with
  | None => fun w => let '(promise, w') := createProvider w in await promise w'
  | Some _ => ret tt
  end.

Definition getProvider_with (switch : Z -> Async unit) (chainId : option Z)
  : Async ProviderRef :=
  win <- the_window ;;
  match win_ronin win with
  | Some r =>
      if provider_on r then ret InjectedProvider
      else
        modify (set_window (Some {| win_ronin := Some patched |})) ;;
        modify (set_isExtension true) ;;
        ret InjectedProvider
  | None =>
      modify (set_isExtension false) ;;
      ensure_provider ;;
      match chainId with
      | Some c => if c =? 0 then ret tt else switch c
      | None => ret tt
      end ;;
      p <- gets provider ;;
      ret match p with
          | Some object => RelayProvider object
          | None => NoProvider
          end
  end.

Definition switch_catch (error : Exn) : Async Chain :=
  let message :=
    match is_thrown_string error with
    | Some text => Some text
    | None => message_of error
    end in
  if Js.test_i "user rejected request" (Js.to_string message)
  then throw (UserRejectedRequestError error)
  else throw (SwitchChainError error).

Definition add_chain_params (hex : string) (chain : Chain) : list Js.value :=
  [Js.Obj
     [("chainId", Js.Str hex);
      ("blockExplorerUrls",
       Js.Arr [Js.Str (default "" (blockExplorers_default_url chain))]);
      ("chainName", Js.Str (chain_name chain));
      ("nativeCurrency",
       let '(n, s, d) := nativeCurrency chain in
       Js.Obj [("name", Js.Str n); ("symbol", Js.Str s);
               ("decimals", Js.Number (Js.Num d))]);
      ("rpcUrls", Js.Arr (map Js.Str (rpcUrls_default_http chain)))]].

Definition switch_try (chainId : Z) (chain : Chain) : Async Chain :=
  provider <- getProvider_with (fun _ => ret tt) None ;;
  namespaceChains <- getNamespaceChainsIds ;;
  namespaceMethods <- getNamespaceMethods ;;
  let isChainApproved := includes_number namespaceChains chainId in
  (if negb isChainApproved && includes_string namespaceMethods ADD_ETH_CHAIN_METHOD
   then
     hex <- lift_result (numberToHex env (chain_id chain)) ;;
     request provider ADD_ETH_CHAIN_METHOD (add_chain_params hex chain) ;;
     requestedChains <- getRequestedChainsIds ;;
     requestedChains <- push requestedChains chainId ;;
     setRequestedChainsIds requestedChains
   else ret tt) ;;
  hex <- lift_result (numberToHex env chainId) ;;
  request provider "wallet_switchEthereumChain"
    [Js.Obj [("chainId", Js.Str hex)]] ;;
  ret chain.

Definition switchChain (chainId : Z) : Async Chain :=
  match find (fun chain => chain_id chain =? chainId) (chains cfg) with
  | None => throw (SwitchChainError (Error "chain not found on connector."))
  | Some chain => try_catch (switch_try chainId chain) switch_catch
  end.

Definition getProvider (chainId : option Z) : Async ProviderRef :=
  getProvider_with (fun c => switchChain c ;; ret tt) chainId.

(** *** Queries *)

Definition getAccount : Async string :=
  provider <- getProvider None ;;
  ext <- gets isExtension ;;
  if negb ext then
    accounts <- provider_accounts provider ;;
    first <- first_of accounts ;;
    lift_result (getAddress env first)
  else
    accounts <- request provider "eth_accounts" [] ;;
    first <- first_of accounts ;;
    lift_result (getAddress env first).

Definition getChainId : Async Js.value :=
  provider <- getProvider None ;;
  ext <- gets isExtension ;;
  if negb ext then provider_chainId provider
  else
    chainId <- request provider "eth_chainId" [] ;;
    ret (Js.Number (js_Number env chainId)).

(** [isChainUnsupported] of the base class:
    [!this.chains.some((x) => x.id === chainId)] *)
Definition isChainUnsupported (chainId : Js.value) : bool :=
  negb (existsb
          (fun x =>
             match chainId with
             | Js.Number n => Js.strict_eq n (chain_id x)
             | _ => false
             end)
          (chains cfg)).

(** *** [connect] *)

Record ConnectionResult := {
  account : string;
  chain : Js.value * bool
}.

Definition chain_payload (c : Js.value * bool) : Js.value :=
  Js.Obj [("id", fst c); ("unsupported", Js.Bool (snd c))].

Definition connecting : Js.value := Js.Obj [("type", Js.Str "connecting")].

Definition connect_try : Async ConnectionResult :=
  provider <- getProvider None ;;
  ext <- gets isExtension ;;
  if ext then
    ronin_addEventListener "accountsChanged" onAccountsChangedH ;;
    ronin_addEventListener "chainChanged" onChainChangedH ;;
    ronin_addEventListener "disconnect" onDisconnectH ;;
    emit "message" connecting ;;
    accounts <- request provider "eth_requestAccounts" [] ;;
    first <- first_of accounts ;;
    account <- lift_result (getAddress env first) ;;
    id <- getChainId ;;
    let unsupported := isChainUnsupported id in
    when (options_shimDisconnect cfg)
         (storage_setItem shimDisconnectKey (StoredBool true)) ;;
    emit "connect"
         (Js.Obj [("account", Js.Str account);
                  ("chain", chain_payload (id, unsupported))]) ;;
    ret {| account := account; chain := (id, unsupported) |}
  else
    setupListeners ;;
    session <- provider_session provider ;;
    match session with
    | None =>
        emit "message" connecting ;;
        provider_connect provider ;;
        setRequestedChainsIds (StoredChains (map chain_id (chains cfg)))
    | Some _ => ret tt
    end ;;
    accounts <- provider_enable provider ;;
    first <- first_of accounts ;;
    account <- lift_result (getAddress env first) ;;
    id <- getChainId ;;
    let unsupported := isChainUnsupported id in
    ret {| account := account; chain := (id, unsupported) |}.

Definition connect_catch (error : Exn) : Async ConnectionResult :=
  if Js.test_i "user rejected" (Js.to_string (message_of error))
  then throw (UserRejectedRequestError error)
  else throw error.

Definition connect : Async ConnectionResult :=
  try_catch connect_try connect_catch.

(** *** [disconnect] *)

Definition no_account : Js.value := Js.Obj [("account", Js.Undefined)].

Definition disconnect_try (provider : ProviderRef) : Async unit :=
  ext <- gets isExtension ;;
  if ext then
    ronin_removeEventListener "accountsChanged" onAccountsChangedH ;;
    ronin_removeEventListener "chainChanged" onChainChangedH ;;
    ronin_removeEventListener "disconnect" onDisconnectH ;;
    emit "change" no_account ;;
    emit "disconnect" Js.Undefined ;;
    when (options_shimDisconnect cfg) (storage_removeItem shimDisconnectKey)
  else
    provider_disconnect provider ;;
    emit "change" no_account ;;
    emit "disconnect" Js.Undefined.

(** The [catch] clause reads [error.message] without [?.]. *)
Definition disconnect_catch (error : Exn) : Async unit :=
  if is_nullish error then throw (undefined_has_no "message")
  else if negb (Js.test_i "No matching key" (Js.to_string (message_of error)))
       then throw error
       else ret tt.

Definition disconnect_finally : Async unit :=
  removeListeners ;;
  setRequestedChainsIds (StoredChains []).

Definition disconnect : Async unit :=
  provider <- getProvider None ;;
  try_finally
    (try_catch (disconnect_try provider) disconnect_catch)
    disconnect_finally.

(** *** [isAuthorized] *)

(** [const [account] = address] *)
Definition first_char (address : string) : option string :=
  match address with
  | EmptyString => None
  | String c _ => Some (String c EmptyString)
  end.

Definition isAuthorized_try : Async bool :=
  ext <- gets isExtension ;;
  disconnected <-
    (if options_shimDisconnect cfg && ext
     then flag <- storage_getItem shimDisconnectKey ;; ret (negb (truthy_stored flag))
     else ret false) ;;
  if (disconnected : bool) then ret false
  else
    address <- getAccount ;;
    match first_char address with
    | None => ret false
    | Some _ => ret true
    end.

Definition isAuthorized : Async bool :=
  try_catch isAuthorized_try (fun _ => ret false).

(** *** Handlers of the relay provider's events *)

Definition onDisconnect : Async unit :=
  setRequestedChainsIds (StoredChains []) ;;
  emit "disconnect" Js.Undefined.

Definition display_uri (data : Js.value) : Js.value :=
  Js.Obj [("type", Js.Str "display_uri"); ("data", data)].

Definition auth_connect (uri : string) : string :=
  "https://wallet.roninchain.com/auth-connect?uri=" +:+ uri.

Definition onDisplayUri (uri : string) : Async unit :=
  emit "message" (display_uri (Js.Str uri)) ;;
  if mobile env && Js.truthy_string uri
  then
    the_window ;;
    perform (WindowOpen (auth_connect uri) "_self" "noreferrer noopener")
  else ret tt.

Definition onConnect : Async unit :=
  emit "connect" (Js.Obj []).

Definition onAccountsChanged : Async unit :=
  address <- getAccount ;;
  if Js.truthy_string address
  then emit "change" (Js.Obj [("account", Js.Str address)])
  else emit "disconnect" Js.Undefined.

Definition onChainChanged : Async unit :=
  id <- getChainId ;;
  let unsupported := isChainUnsupported id in
  emit "change" (Js.Obj [("chain", chain_payload (id, unsupported))]).

(** *** The constructor

    The field initialisers run first; [globals] is the [window] of the
    moment and [store] the [storage] the framework gives the connector. *)
Definition fields (globals : option Window)
           (store : option (gmap string StoredValue)) : World := {|
  window := globals;
  storage := store;
  relay := no_relay;
  tasks := [];
  trace := [];
  isExtension :=
    match globals with
    | None => false
    | Some win => match win_ronin win with Some _ => true | None => false end
    end;
  provider := None;
  initProviderPromise := None
|}.

Definition constructor (globals : option Window)
           (store : option (gmap string StoredValue)) : World :=
  let this := fields globals store in
  if negb (isExtension this) then snd (createProvider this) else this.

End Connector.

Arguments account {_}.
Arguments chain {_}.

(** ** The scheduler's view of [#createProvider]

    Callers and the pending initialisation interleave: an event is a call of
    [#createProvider] or the resumption of a parked task. *)

Inductive Event :=
| Call
| Resume (task : nat).

(** The promises answered to the calls, in order, and the world at the end. *)
Fixpoint run (env : Env) (cfg : Config) (events : list Event) (w : World)
  : list (option nat) * World :=
  match events with
  | [] => ([], w)
  | Call :: rest =>
      let '(promise, w') := createProvider w in
      let '(promises, w'') := run env cfg rest w' in
      (promise :: promises, w'')
  | Resume i :: rest => run env cfg rest (resume env cfg i w)
  end.

Definition is_construction (e : Effect) : bool :=
  match e with
  | EthereumProviderInit _ => true
  | _ => false
  end.

(** How many times [EthereumProvider.init] was called. *)
Definition constructions (w : World) : nat :=
  length (filter (fun e => is_construction e = true) (trace w)).

(** ** Vocabulary of the properties *)

(** The text the patterns of [connect] and [disconnect] are tested on. *)
Definition message_text (env : Env) (error : Exn) : string :=
  Js.to_string (message_of env error).

(** The text the pattern of [switchChain] is tested on: a thrown string
    itself, the [message] of anything else. *)
Definition switch_text (env : Env) (error : Exn) : string :=
  Js.to_string
    match is_thrown_string error with
    | Some text => Some text
    | None => message_of env error
    end.

(** The payload the specification gives the pairing event. *)
Definition spec_display_uri (uri : string) (mobile : bool) : Js.value :=
  Js.Obj [("type", Js.Str "display_uri");
          ("data", Js.Obj [("uri", Js.Str uri); ("mobile", Js.Bool mobile)])].

(** The navigation [onDisplayUri] performs, if any. *)
Definition navigation (env : Env) (uri : string) (w : World) : list Effect :=
  if mobile env && Js.truthy_string uri
  then match window w with
       | Some _ => [WindowOpen (auth_connect uri) "_self" "noreferrer noopener"]
       | None => []
       end
  else [].

(** The six calls of [#removeListeners], made when a relay provider exists. *)
Definition relay_teardown (p : option nat) : list Effect :=
  match p with
  | None => []
  | Some _ =>
      [RelayRemoveListener "accountsChanged" onAccountsChangedH;
       RelayRemoveListener "chainChanged" onChainChangedH;
       RelayRemoveListener "disconnect" onDisconnectH;
       RelayRemoveListener "session_delete" onDisconnectH;
       RelayRemoveListener "display_uri" onDisplayUriH;
       RelayRemoveListener "connect" onConnectH]
  end.

(** The three listeners taken off the extension. *)
Definition ronin_teardown : list Effect :=
  [RoninRemoveEventListener "accountsChanged" onAccountsChangedH;
   RoninRemoveEventListener "chainChanged" onChainChangedH;
   RoninRemoveEventListener "disconnect" onDisconnectH].

(** The object behind [this.#provider!]. *)
Definition provider_ref (w : World) : ProviderRef :=
  match provider w with
  | Some object => RelayProvider object
  | None => NoProvider
  end.

(** What the store holds under a key, if there is a store. *)
Definition stored (key : string) (w : World) : option StoredValue :=
  storage w ≫= fun m => m !! key.

(** Whether a finished initialisation called [EthereumProvider.init]. *)
Definition built (env : Env) (cfg : Config) : nat :=
  match import_ethereum_provider env, init_args cfg (map chain_id (chains cfg)) with
  | None, Some _ => 1
  | _, _ => 0
  end.

(** How many calls of [EthereumProvider.init] a task in state [st] has
    behind it. *)
Definition built_so_far (env : Env) (cfg : Config) (st : TaskState) : nat :=
  match st with
  | AwaitingImport => 0
  | AwaitingInit _ | Settled _ => built env cfg
  end.

(** The promise heap as [#createProvider] keeps it: nothing before the
    first call, one task from then on. *)
Definition initialised_once (env : Env) (cfg : Config) (w : World) : Prop :=
  match initProviderPromise w with
  | None => tasks w = [] /\ constructions w = 0%nat
  | Some i =>
      i = 0%nat /\
      exists st, tasks w = [st] /\
        constructions w = built_so_far env cfg st /\
        (forall args, st = AwaitingInit args -> built env cfg = 1%nat)
  end.





(** [if (defaultChain)]: there is a first chain and its id is not zero. *)
Definition default_chain_truthy (cfg : Config) : bool :=
  match chains cfg with
  | [] => false
  | c :: _ => negb (chain_id c =? 0)
  end.

(** ** The connector in use

    What can happen to a connector once it is constructed: the host calls a
    method, a transport fires an event, the event loop resumes the pending
    initialisation, or the page's globals change (the extension arrives or
    goes). *)

Inductive Action :=
| CallConnect
| CallDisconnect
| CallGetAccount
| CallGetChainId
| CallGetProvider (chainId : option Z)
| CallIsAuthorized
| CallSwitchChain (chainId : Z)
| FireAccountsChanged
| FireChainChanged
| FireDisconnect
| FireDisplayUri (uri : string)
| FireConnect
| LoopResume (task : nat)
| PageChanges (globals : option Window).

(** The world after one action, whatever the action answered. *)
Definition after (env : Env) (cfg : Config) (a : Action) (w : World) : World :=
  match a with
  | CallConnect => snd (connect env cfg w)
  | CallDisconnect => snd (disconnect env cfg w)
  | CallGetAccount => snd (getAccount env cfg w)
  | CallGetChainId => snd (getChainId env cfg w)
  | CallGetProvider chainId => snd (getProvider env cfg chainId w)
  | CallIsAuthorized => snd (isAuthorized env cfg w)
  | CallSwitchChain chainId => snd (switchChain env cfg chainId w)
  | FireAccountsChanged => snd (onAccountsChanged env cfg w)
  | FireChainChanged => snd (onChainChanged env cfg w)
  | FireDisconnect => snd (onDisconnect w)
  | FireDisplayUri uri => snd (onDisplayUri env uri w)
  | FireConnect => snd (onConnect w)
  | LoopResume task => resume env cfg task w
  | PageChanges globals => set_window globals w
  end.

Definition after_all (env : Env) (cfg : Config) (actions : list Action) (w : World)
  : World :=
  fold_left (fun w a => after env cfg a w) actions w.

(** The keys of the store an action may write under. *)
Definition may_write (a : Action) : list string :=
  match a with
  | CallConnect | CallDisconnect => [shimDisconnectKey; REQUESTED_CHAINS_KEY]
  | CallGetProvider (Some _) | CallSwitchChain _ | FireDisconnect =>
      [REQUESTED_CHAINS_KEY]
  | _ => []
  end.

(** The actions that may emit an event. *)
Definition may_emit (a : Action) : bool :=
  match a with
  | CallConnect | CallDisconnect
  | FireAccountsChanged | FireChainChanged | FireDisconnect | FireDisplayUri _
  | FireConnect => true
  | _ => false
  end.

(** A computation respects a relation between the world before and the
    world after, on whichever exit. *)
Definition respects {A} (R : relation World) (m : Async A) : Prop :=
  forall w, R w (snd (m w)).

(** [f] reads the same before and after. *)
Definition unchanged {B} (f : World -> B) : relation World :=
  fun w w' => f w' = f w.

(** The events emitted so far. *)
Definition is_emit (e : Effect) : bool :=
  match e with
  | Emit _ _ => true
  | _ => false
  end.

Definition emitted (w : World) : list Effect :=
  filter (fun e => is_emit e = true) (trace w).

(** The connector has at most one initialisation and at most the one relay
    provider it built. *)
Definition one_relay_provider (env : Env) (cfg : Config) (w : World) : Prop :=
  initialised_once env cfg w /\ forall o, provider w = Some o -> o = 0%nat.

(** From a connector in that state an action leads to one in that state,
    holding the same relay provider if it held one. *)
Definition keeps_relay_provider (env : Env) (cfg : Config) : relation World :=
  fun w w' =>
    one_relay_provider env cfg w ->
    one_relay_provider env cfg w' /\
    forall o, provider w = Some o -> provider w' = Some o.

(** The fields the initialisation is about. *)
Definition same_initialisation (w w' : World) : Prop :=
  initProviderPromise w' = initProviderPromise w /\ tasks w' = tasks w /\
  constructions w' = constructions w /\ provider w' = provider w.

(** Whether a character occurs in a string. *)
Fixpoint mentions (c : ascii) (s : string) : bool :=
  match s with
  | EmptyString => false
  | String c' s' => (if ascii_dec c' c then true else false) || mentions c s'
  end.

(** The three listeners [connect] puts on the extension, and the six
    [#setupListeners] puts on the relay provider. *)
Definition ronin_setup : list Effect :=
  [RoninAddEventListener "accountsChanged" onAccountsChangedH;
   RoninAddEventListener "chainChanged" onChainChangedH;
   RoninAddEventListener "disconnect" onDisconnectH].

Definition relay_setup : list Effect :=
  [RelayOn "accountsChanged" onAccountsChangedH;
   RelayOn "chainChanged" onChainChangedH;
   RelayOn "disconnect" onDisconnectH;
   RelayOn "session_delete" onDisconnectH;
   RelayOn "display_uri" onDisplayUriH;
   RelayOn "connect" onConnectH].

(** The test of [switchChain] before it asks the wallet to add the chain:
    the session has not approved the chain and lists the method. *)
Definition adds_chain (env : Env) (chainId : Z) (w : World) : bool :=
  match getNamespaceChainsIds env w, getNamespaceMethods w with
  | (Return namespaceChains, _), (Return namespaceMethods, _) =>
      negb (includes_number namespaceChains chainId) &&
      includes_string namespaceMethods ADD_ETH_CHAIN_METHOD
  | _, _ => false
  end.

(** A request as the log records it, by the provider it was sent to. *)
Definition sent (p : ProviderRef) (method : string) (params : list Js.value)
  : Effect :=
  match p with
  | InjectedProvider => InjectedRequest method params
  | RelayProvider _ | NoProvider => RelayRequest method params
  end.

(** [this.#getRequestedChainsIds()] where the store can be read. *)
Definition requested_chains (w : World) : StoredValue :=
  default (StoredChains []) (stored REQUESTED_CHAINS_KEY w).

(** ** Sample collaborators *)

Module Sample.

(** Decimal digits at the head of a string, as [parseInt] reads them. *)
Fixpoint digits (s : string) (acc : option Z) : option Z :=
  match s with
  | EmptyString => acc
  | String c s' =>
      let n := nat_of_ascii c in
      if ((48 <=? n)%nat && (n <=? 57)%nat)%bool
      then digits s' (Some (10 * default 0 acc + Z.of_nat (n - 48)))
      else acc
  end.

Definition parseInt (s : string) : Js.number :=
  match digits s None with
  | Some z => Js.Num z
  | None => Js.NaN
  end.

(** [Number] on the hexadecimal quantities of the JSON-RPC wire. *)
Definition Number (v : Js.value) : Js.number :=
  match v with
  | Js.Number n => n
  | Js.Str s =>
      if String.eqb (HexString.of_Z (HexString.to_Z s)) s
      then Js.Num (HexString.to_Z s) else parseInt s
  | _ => Js.NaN
  end.

Definition invalid_address : Exn :=
  ErrorObject "InvalidAddressError" (Some "Address is invalid.").

Definition wallet_account : string :=
  "0x52908400098527886E0F7030069857D2E4169EE7".

(** The session a wallet grants on the relay. *)
Definition granted : RelayState := {|
  session := Some {| namespaces := Some {[
    NAMESPACE := {| ns_chains := Some ["eip155:2020"];
                    ns_methods := ["eth_sendTransaction"; "personal_sign"] |} ]} |};
  accounts := [wallet_account];
  relay_chainId := Js.Num 2020
|}.

(** The extension's answers. *)
Definition wallet (method : string) (params : list Js.value) : Exn + Js.value :=
  if String.eqb method "eth_chainId" then inr (Js.Str "0x7e4")
  else if String.eqb method "eth_accounts" then inr (Js.Arr [Js.Str wallet_account])
  else if String.eqb method "eth_requestAccounts"
       then inr (Js.Arr [Js.Str wallet_account])
  else inr Js.Undefined.

(** A desktop browser whose collaborators all answer; addresses are
    returned as they come. *)
Definition env : Env := {|
  mobile := false;
  getAddress := fun v =>
    match v with
    | Js.Str s => inr s
    | _ => inl invalid_address
    end;
  numberToHex := fun z =>
    if z <? 0 then inl (ErrorObject "IntegerOutOfRangeError" None)
    else inr (HexString.of_Z z);
  viem_message := fun e =>
    match e with
    | UserRejectedRequestError _ => "User rejected the request."
    | _ => "An error occurred when attempting to switch chain."
    end;
  js_Number := Number;
  js_parseInt := parseInt;
  import_ethereum_provider := None;
  EthereumProvider_init := fun _ => inr no_relay;
  relay_connect := fun _ => inr granted;
  relay_enable := fun st => inr (accounts st, st);
  relay_disconnect := fun _ => inr no_relay;
  relay_request := fun st _ _ => inr (Js.Undefined, st);
  injected_request := wallet;
  storage_getItem_fault := None
|}.

Definition with_mobile (m : bool) (e : Env) : Env := {|
  mobile := m;
  getAddress := getAddress e;
  numberToHex := numberToHex e;
  viem_message := viem_message e;
  js_Number := js_Number e;
  js_parseInt := js_parseInt e;
  import_ethereum_provider := import_ethereum_provider e;
  EthereumProvider_init := EthereumProvider_init e;
  relay_connect := relay_connect e;
  relay_enable := relay_enable e;
  relay_disconnect := relay_disconnect e;
  relay_request := relay_request e;
  injected_request := injected_request e;
  storage_getItem_fault := storage_getItem_fault e
|}.

Definition with_injected_request
           (f : string -> list Js.value -> Exn + Js.value) (e : Env) : Env := {|
  mobile := mobile e;
  getAddress := getAddress e;
  numberToHex := numberToHex e;
  viem_message := viem_message e;
  js_Number := js_Number e;
  js_parseInt := js_parseInt e;
  import_ethereum_provider := import_ethereum_provider e;
  EthereumProvider_init := EthereumProvider_init e;
  relay_connect := relay_connect e;
  relay_enable := relay_enable e;
  relay_disconnect := relay_disconnect e;
  relay_request := relay_request e;
  injected_request := f;
  storage_getItem_fault := storage_getItem_fault e
|}.

Definition with_relay_connect (f : RelayState -> Exn + RelayState) (e : Env) : Env := {|
  mobile := mobile e;
  getAddress := getAddress e;
  numberToHex := numberToHex e;
  viem_message := viem_message e;
  js_Number := js_Number e;
  js_parseInt := js_parseInt e;
  import_ethereum_provider := import_ethereum_provider e;
  EthereumProvider_init := EthereumProvider_init e;
  relay_connect := f;
  relay_enable := relay_enable e;
  relay_disconnect := relay_disconnect e;
  relay_request := relay_request e;
  injected_request := injected_request e;
  storage_getItem_fault := storage_getItem_fault e
|}.

Definition with_relay_disconnect (f : RelayState -> Exn + RelayState) (e : Env) : Env := {|
  mobile := mobile e;
  getAddress := getAddress e;
  numberToHex := numberToHex e;
  viem_message := viem_message e;
  js_Number := js_Number e;
  js_parseInt := js_parseInt e;
  import_ethereum_provider := import_ethereum_provider e;
  EthereumProvider_init := EthereumProvider_init e;
  relay_connect := relay_connect e;
  relay_enable := relay_enable e;
  relay_disconnect := f;
  relay_request := relay_request e;
  injected_request := injected_request e;
  storage_getItem_fault := storage_getItem_fault e
|}.

Definition with_import (r : option Exn) (e : Env) : Env := {|
  mobile := mobile e;
  getAddress := getAddress e;
  numberToHex := numberToHex e;
  viem_message := viem_message e;
  js_Number := js_Number e;
  js_parseInt := js_parseInt e;
  import_ethereum_provider := r;
  EthereumProvider_init := EthereumProvider_init e;
  relay_connect := relay_connect e;
  relay_enable := relay_enable e;
  relay_disconnect := relay_disconnect e;
  relay_request := relay_request e;
  injected_request := injected_request e;
  storage_getItem_fault := storage_getItem_fault e
|}.

Definition with_getItem_fault (r : option Exn) (e : Env) : Env := {|
  mobile := mobile e;
  getAddress := getAddress e;
  numberToHex := numberToHex e;
  viem_message := viem_message e;
  js_Number := js_Number e;
  js_parseInt := js_parseInt e;
  import_ethereum_provider := import_ethereum_provider e;
  EthereumProvider_init := EthereumProvider_init e;
  relay_connect := relay_connect e;
  relay_enable := relay_enable e;
  relay_disconnect := relay_disconnect e;
  relay_request := relay_request e;
  injected_request := injected_request e;
  storage_getItem_fault := r
|}.

(** The wallet's answer when the user declines. *)
Definition declined : Exn :=
  ErrorObject "ProviderRpcError" (Some "User rejected the request.").

(** The relay's answer when the session is already gone. *)
Definition gone : Exn :=
  Error "No matching key. session topic doesn't exist: 7f6e".

Definition hang_up : Exn := Error "socket hang up".
Definition offline : Exn :=
  TypeError "Failed to fetch dynamically imported module".

Definition declining_wallet : Env :=
  with_injected_request (fun _ _ => inl declined) env.
Definition declining_relay : Env := with_relay_connect (fun _ => inl declined) env.
Definition ended_session : Env := with_relay_disconnect (fun _ => inl gone) env.
Definition broken_relay : Env := with_relay_disconnect (fun _ => inl hang_up) env.
Definition no_network : Env := with_import (Some offline) env.
(** Every query fails: the wallet's requests and the reads of the store. *)
Definition failing : Env :=
  with_getItem_fault (Some hang_up) (with_injected_request (fun _ _ => inl hang_up) env).

(** The configuration of the application: one chain, default options. *)
Definition cfg : Config := {|
  chains := [ronin];
  options := {| projectId := "project"; metadata := None; relayUrl := None;
                shimDisconnect := None |}
|}.

Definition no_chains : Config := {| chains := []; options := options cfg |}.

(** A browser page without the extension, one with it, and one whose
    extension already has [on] on its provider. *)
Definition page : Window := {| win_ronin := None |}.
Definition page_with_extension : Window :=
  {| win_ronin := Some {| provider_on := false; provider_removeListener := false |} |}.
Definition page_with_listening_extension : Window :=
  {| win_ronin := Some patched |}.

(** The store after a session with the extension. *)
Definition store_after_extension : gmap string StoredValue :=
  {[ shimDisconnectKey := StoredBool true;
     REQUESTED_CHAINS_KEY := StoredChains [2020] ]}.

(** The connector of a page without the extension, just constructed; the
    same with the store a former session left; the connector of a page
    with the extension; and one the extension, its provider having [on],
    reaches only after it was constructed. *)
Definition browser : World := constructor (Some page) (Some ∅).
Definition returning_browser : World :=
  constructor (Some page) (Some store_after_extension).
Definition browser_with_extension : World :=
  constructor (Some page_with_extension) (Some ∅).
Definition late_extension : World :=
  set_window (Some page_with_listening_extension) browser.
(** The same when the late extension's provider has no [on] yet. *)
Definition late_bare_extension : World :=
  set_window (Some page_with_extension) browser.

(** The configuration of the example application: both chains. *)
Definition two_chains : Config :=
  {| chains := [ronin; saigon]; options := options cfg |}.

(** A session whose wallet lets chains be added. *)
Definition permissive : RelayState := {|
  session := Some {| namespaces := Some {[
    NAMESPACE := {| ns_chains := Some ["eip155:2020"];
                    ns_methods :=
                      ["eth_sendTransaction"; ADD_ETH_CHAIN_METHOD] |} ]} |};
  accounts := [wallet_account];
  relay_chainId := Js.Num 2020
|}.

Definition permissive_relay : Env :=
  with_relay_connect (fun _ => inr permissive) env.

(** The connector of a page without the extension once its relay provider
    is built, then once a wallet has granted a session, and the one of a
    server. *)
Definition built_browser : World := snd (getProvider env cfg None browser).
Definition connected_browser : World := snd (connect env cfg browser).
Definition permissive_browser : World :=
  snd (connect permissive_relay two_chains browser).
Definition offline_browser : World := snd (getProvider no_network cfg None browser).
Definition server : World := constructor None None.

(** A wallet's other wording of a refusal. *)
Definition refused : Exn :=
  ErrorObject "ProviderRpcError" (Some "User rejected request.").

End Sample.

(** * Properties *)

(** ** The patterns *)

Lemma same_char_i_spec a b :
  Js.same_char_i a b = true <-> Js.canonicalize a = Js.canonicalize b.
Proof.
  unfold Js.same_char_i.
  destruct (ascii_dec (Js.canonicalize a) (Js.canonicalize b)); split; congruence.
Qed.

Lemma starts_with_i_spec pat : forall s,
  Js.starts_with_i pat s = true <->
  exists part after, s = part +:+ after /\ Js.fold_case part = Js.fold_case pat.
Proof.
  induction pat as [|p pat IH]; intros s; simpl.
  - split; [|done]. intros _. by exists "", s.
  - destruct s as [|c s]; simpl.
    + split; [done|]. intros (part & after & Hs & Hf).
      destruct part; simpl in *; discriminate.
    + rewrite andb_true_iff, same_char_i_spec, IH. split.
      * intros (Hc & part & after & -> & Hf).
        exists (String c part), after. simpl. split; [done|]. by rewrite Hc, Hf.
      * intros (part & after & Hs & Hf).
        destruct part as [|c' part]; simpl in *; [discriminate|].
        injection Hs as -> ->. injection Hf as Hc Hf.
        split; [done|]. by exists part, after.
Qed.

Lemma test_i_unfold pat s :
  Js.test_i pat s =
    Js.starts_with_i pat s ||
    match s with
    | EmptyString => false
    | String _ s' => Js.test_i pat s'
    end.
Proof. by destruct s. Qed.

Lemma test_i_spec pat s : Js.test_i pat s = true <-> Js.contains_i pat s.
Proof.
  unfold Js.contains_i. induction s as [|c s IH].
  - rewrite test_i_unfold, orb_false_r, starts_with_i_spec. split.
    + intros (part & after & Hs & Hf). by exists "", part, after.
    + intros (before & part & after & Hs & Hf).
      destruct before; simpl in Hs; [|discriminate]. by exists part, after.
  - rewrite test_i_unfold, orb_true_iff, starts_with_i_spec, IH. split.
    + intros [(part & after & Hs & Hf)|(before & part & after & Hs & Hf)].
      * by exists "", part, after.
      * exists (String c before), part, after. simpl. by rewrite Hs.
    + intros (before & part & after & Hs & Hf).
      destruct before as [|c' before]; simpl in Hs.
      * left. by exists part, after.
      * right. injection Hs as -> ->. by exists before, part, after.
Qed.

Lemma test_i_false pat s : Js.test_i pat s = false <-> ~ Js.contains_i pat s.
Proof. rewrite <- test_i_spec. by destruct (Js.test_i pat s). Qed.

(** A longer pattern asks for more. *)
Lemma starts_with_i_shorter pat more : forall s,
  Js.starts_with_i (pat +:+ more) s = true -> Js.starts_with_i pat s = true.
Proof.
  induction pat as [|p pat IH]; intros s; simpl; [done|].
  destruct s as [|c s]; [done|].
  rewrite !andb_true_iff. intros [Hc H]. auto.
Qed.

Lemma contains_i_shorter pat more s :
  Js.contains_i (pat +:+ more) s -> Js.contains_i pat s.
Proof.
  rewrite <- !test_i_spec. induction s as [|c s IH].
  - rewrite !test_i_unfold, !orb_false_r. apply starts_with_i_shorter.
  - rewrite (test_i_unfold _ (String c s)), (test_i_unfold pat (String c s)).
    rewrite !orb_true_iff. intros [H|H]; [left|right]; auto.
    by apply starts_with_i_shorter with more.
Qed.

(** ** Awaiting the initialisation *)

Section Await.
Variable env : Env.
Variable cfg : Config.

Lemma resume_at i w st :
  tasks w !! i = Some st ->
  exists st', tasks (resume env cfg i w) !! i = Some st' /\
    match st with
    | AwaitingImport => st' <> AwaitingImport
    | AwaitingInit _ | Settled _ => exists r, st' = Settled r
    end.
Proof.
  intros H. pose proof (lookup_lt_Some _ _ _ H) as Hlt.
  unfold resume. rewrite H. destruct st as [|args|r].
  - destruct (import_ethereum_provider env); simpl.
    + rewrite list_lookup_insert_eq by done. eauto.
    + destruct (init_args cfg _); simpl;
        rewrite list_lookup_insert_eq by done; eauto.
  - destruct (EthereumProvider_init env args); simpl;
      rewrite list_lookup_insert_eq by done; eauto.
  - eauto.
Qed.

(** A parked task is settled by its second resumption at the latest, so
    [await] on a promise of the heap ends on how the promise settled. *)
Lemma await_settles i w st :
  tasks w !! i = Some st ->
  exists r, tasks (resume env cfg i (resume env cfg i w)) !! i = Some (Settled r) /\
    await env cfg (Some i) w =
      (match r with None => Return tt | Some e => Throw e end,
       resume env cfg i (resume env cfg i w)).
Proof.
  intros H.
  destruct (resume_at i w st H) as (st1 & H1 & Hst1).
  destruct (resume_at i _ st1 H1) as (st2 & H2 & Hst2).
  assert (exists r, st2 = Settled r) as [r ->].
  { destruct st as [|args|r0].
    - destruct st1 as [|args|r1]; [done|done|done].
    - destruct Hst1 as [r1 ->]. done.
    - destruct Hst1 as [r1 ->]. done. }
  exists r. split; [done|]. unfold await. rewrite H2. by destruct r.
Qed.

End Await.

(** ** The pairing event *)

(** C1, as the code has it. For every pairing URI [uri] the connector
    emits exactly one [message] event, whose payload is
    [{ type: "display_uri", data: uri }] with the bare string as [data];
    after it, and only when the runtime is mobile and [uri] is not empty,
    the page is navigated to the wallet's [auth-connect] address followed
    by [uri]. *)
Theorem onDisplayUri_emits_the_uri env uri w :
  trace (snd (onDisplayUri env uri w)) =
    trace w ++ Emit "message" (display_uri (Js.Str uri)) :: navigation env uri w.
Proof.
  unfold onDisplayUri, navigation, emit, perform, modify, the_window, bind.
  destruct (mobile env && Js.truthy_string uri); simpl; [|done].
  destruct (window w); simpl; [|done].
  by rewrite <- app_assoc.
Qed.

(** ** Error normalisation in [connect] and [switchChain] *)

Section Rejections.
Variable env : Env.
Variable cfg : Config.

Lemma find_chain_none chainId :
  chainId ∉ map chain_id (chains cfg) ->
  find (fun chain => chain_id chain =? chainId) (chains cfg) = None.
Proof.
  induction (chains cfg) as [|c l IH]; simpl; [done|].
  intros H. apply not_elem_of_cons in H as [Hne Hl].
  destruct (Z.eqb_spec (chain_id c) chainId); [congruence|auto].
Qed.

(** Without a configured chain the method throws before its [try]. *)
Lemma switchChain_without_chain chainId w :
  find (fun chain => chain_id chain =? chainId) (chains cfg) = None ->
  switchChain env cfg chainId w = (Throw ChainNotFound, w).
Proof. intros H. unfold switchChain. by rewrite H. Qed.

(** C3. For every integer [chainId] that is the id of no configured
    chain, [switchChain(chainId)] rejects with [ChainNotFound], the
    [SwitchChainError] around "chain not found on connector.", and the
    world is the one it was called in: no request reached a provider. *)
Theorem switchChain_unknown_chain chainId w :
  chainId ∉ map chain_id (chains cfg) ->
  switchChain env cfg chainId w = (Throw ChainNotFound, w).
Proof.
  intros H. by apply switchChain_without_chain, find_chain_none.
Qed.

Lemma connect_catch_spec error w :
  connect_catch env error w =
    (Throw (if Js.test_i "user rejected" (message_text env error)
            then UserRejected error else error), w).
Proof.
  unfold connect_catch, message_text. by destruct (Js.test_i _ _).
Qed.

Lemma switch_catch_spec error w :
  switch_catch env error w =
    (Throw (if Js.test_i "user rejected request" (switch_text env error)
            then UserRejected error else SwitchChainFailed error), w).
Proof.
  unfold switch_catch, switch_text. by destruct (Js.test_i _ _).
Qed.


(** Whatever [connect] does when nothing is thrown is what the caller gets. *)
Lemma connect_returns w result w' :
  connect_try env cfg w = (Return result, w') ->
  connect env cfg w = (Return result, w').
Proof. intros H. unfold connect, try_catch. by rewrite H. Qed.

End Rejections.

(** ** One initialisation of the relay provider *)

Section Initialisation.
Variable env : Env.
Variable cfg : Config.

Lemma constructions_perform w e :
  constructions (set_trace (trace w ++ [e]) w) =
    (constructions w + if is_construction e then 1 else 0)%nat.
Proof.
  unfold constructions. simpl. rewrite filter_app, length_app. f_equal.
  destruct e; reflexivity.
Qed.

Lemma createProvider_once globals w :
  window w = Some globals ->
  initialised_once env cfg w ->
  fst (createProvider w) = Some 0%nat /\
  window (snd (createProvider w)) = Some globals /\
  initialised_once env cfg (snd (createProvider w)).
Proof.
  unfold initialised_once, createProvider. intros Hwin Hinv. rewrite Hwin.
  destruct (initProviderPromise w) as [i|] eqn:Hp; simpl.
  - rewrite Hp. destruct Hinv as [-> Hinv]. auto.
  - destruct Hinv as [Ht Hc]. rewrite Ht. simpl.
    repeat split; [done|]. exists AwaitingImport. split; [done|].
    split; [|done].
    change (constructions (set_trace (trace w ++ [ImportEthereumProvider]) w) = 0%nat).
    rewrite constructions_perform, Hc. reflexivity.
Qed.

Lemma resume_once globals i w :
  window w = Some globals ->
  initialised_once env cfg w ->
  window (resume env cfg i w) = Some globals /\
  initialised_once env cfg (resume env cfg i w).
Proof.
  unfold initialised_once, resume. intros Hwin Hinv.
  destruct (initProviderPromise w) as [p|] eqn:Hp.
  - destruct Hinv as (-> & st & Ht & Hc & Hb). rewrite Ht.
    destruct i as [|i]; simpl; [|rewrite Hp; eauto 10].
    destruct st as [|args|r]; simpl.
    + unfold built_so_far, built in *. destruct (import_ethereum_provider env); simpl.
      * rewrite Hp. repeat split; [done|]. eexists. repeat split; done.
      * destruct (init_args cfg _) as [args|]; simpl; rewrite Hp.
        -- repeat split; [done|]. eexists. split; [done|]. split; [|done].
           change (constructions (set_trace (trace w ++ [EthereumProviderInit args]) w) = 1%nat).
           rewrite constructions_perform, Hc. reflexivity.
        -- repeat split; [done|]. eexists. repeat split; done.
    + destruct (EthereumProvider_init env args); simpl; rewrite Hp;
        (repeat split; [done|]); eexists; (split; [done|]); split; done.
    + rewrite Hp. eauto 10.
  - destruct Hinv as [Ht Hc]. rewrite Ht. simpl. by rewrite Hp.
Qed.

Lemma createProvider_stores w :
  initProviderPromise (snd (createProvider w)) = fst (createProvider w).
Proof.
  unfold createProvider.
  by destruct (initProviderPromise w), (window w).
Qed.

Lemma resume_keeps_promise i w :
  initProviderPromise (resume env cfg i w) = initProviderPromise w.
Proof.
  unfold resume. destruct (tasks w !! i) as [[|args|r]|]; try done.
  - destruct (import_ethereum_provider env); [done|].
    by destruct (init_args cfg _).
  - by destruct (EthereumProvider_init env args).
Qed.

Lemma run_call events w :
  run env cfg (Call :: events) w =
    (fst (createProvider w) :: fst (run env cfg events (snd (createProvider w))),
     snd (run env cfg events (snd (createProvider w)))).
Proof.
  cbn [run]. destruct (createProvider w) as [p w1]. cbn [fst snd].
  by destruct (run env cfg events w1).
Qed.

Lemma run_once globals events : forall w,
  window w = Some globals ->
  initialised_once env cfg w ->
  Forall (fun p => p = Some 0%nat) (fst (run env cfg events w)) /\
  window (snd (run env cfg events w)) = Some globals /\
  initialised_once env cfg (snd (run env cfg events w)) /\
  (initProviderPromise w <> None \/ fst (run env cfg events w) <> [] ->
     initProviderPromise (snd (run env cfg events w)) <> None).
Proof.
  induction events as [|[|i] events IH]; intros w Hwin Hinv.
  - simpl. split; [constructor|]. split; [done|]. split; [done|].
    by intros [H|H].
  - rewrite run_call. cbn [fst snd].
    destruct (createProvider_once globals w Hwin Hinv) as (Hp & Hwin' & Hinv').
    specialize (IH _ Hwin' Hinv') as (Hall & Hw & Hi & Hne).
    split; [by constructor|]. split; [done|]. split; [done|]. intros _.
    apply Hne. left. by rewrite createProvider_stores, Hp.
  - change (run env cfg (Resume i :: events) w)
      with (run env cfg events (resume env cfg i w)).
    destruct (resume_once globals i w Hwin Hinv) as [Hwin' Hinv'].
    specialize (IH _ Hwin' Hinv') as (Hall & Hw & Hi & Hne).
    split; [done|]. split; [done|]. split; [done|].
    rewrite resume_keeps_promise in Hne. done.
Qed.

Lemma built_le : (built env cfg <= 1)%nat.
Proof. unfold built. repeat case_match; lia. Qed.

Lemma init_args_truthy :
  is_Some (init_args cfg (map chain_id (chains cfg))) <->
  default_chain_truthy cfg = true.
Proof.
  unfold init_args, default_chain_truthy.
  destruct (chains cfg) as [|c l]; simpl.
  - split; [by intros [? ?]|done].
  - destruct (chain_id c =? 0); simpl.
    + split; [by intros [? ?]|done].
    + split; [done|]. intros _. by eexists.
Qed.

(** A settled or half-way task has called [EthereumProvider.init] exactly
    when the import succeeded and the first chain id is not zero. *)
Lemma built_spec :
  built env cfg =
    match import_ethereum_provider env with
    | None => if default_chain_truthy cfg then 1%nat else 0%nat
    | Some _ => 0%nat
    end.
Proof.
  unfold built. destruct (import_ethereum_provider env); [done|].
  pose proof init_args_truthy as [H1 H2].
  destruct (init_args cfg _) as [args|], (default_chain_truthy cfg); try done.
  - by specialize (H1 (mk_is_Some _ _ eq_refl)).
  - by destruct (H2 eq_refl).
Qed.

(** C4, as the code has it. On a connector in a browser, whatever the
    calls of [#createProvider] and however they interleave with the
    progress of the initialisation, [#initProvider] is started at most
    once, and exactly once as soon as one call was made: the first call
    stores the promise and every call answers that same promise, while it
    is pending and after.  [EthereumProvider.init] is called at most once;
    once the task is past its import it has been called exactly once if
    the import succeeded and the first configured chain id is not zero, and
    never otherwise: a connector without chains builds no relay provider. *)
Theorem createProvider_initialises_once globals events w :
  window w = Some globals ->
  initProviderPromise w = None -> tasks w = [] -> constructions w = 0%nat ->
  let promises := fst (run env cfg events w) in
  let w' := snd (run env cfg events w) in
  Forall (fun p => p = Some 0%nat) promises /\
  (length (tasks w') <= 1)%nat /\
  (promises <> [] ->
     length (tasks w') = 1%nat /\ initProviderPromise w' = Some 0%nat) /\
  (constructions w' <= 1)%nat /\
  (forall st, tasks w' = [st] -> st <> AwaitingImport ->
     constructions w' =
       match import_ethereum_provider env with
       | None => if default_chain_truthy cfg then 1%nat else 0%nat
       | Some _ => 0%nat
       end).
Proof.
  intros Hwin Hp Ht Hc promises w'.
  assert (Hinv : initialised_once env cfg w).
  { unfold initialised_once. by rewrite Hp. }
  destruct (run_once globals events w Hwin Hinv) as (Hall & _ & Hinv' & Hset).
  fold promises w' in Hall, Hinv', Hset.
  pose proof built_le as Hle.
  unfold initialised_once in Hinv'.
  split; [done|].
  destruct (initProviderPromise w') as [i|] eqn:Hp'.
  - destruct Hinv' as (-> & st & Ht' & Hc' & _). rewrite Ht'. simpl.
    split; [lia|]. split; [done|]. split.
    + rewrite Hc'. destruct st; simpl; lia.
    + intros st' [= <-] Hne. rewrite Hc', <- built_spec. by destruct st.
  - destruct Hinv' as [Ht' Hc']. rewrite Ht', Hc'. simpl.
    split; [lia|]. split; [|split; [lia|done]].
    intros Hne. exfalso. apply Hset; auto.
Qed.


End Initialisation.

(** ** Acquiring a provider *)

Section Acquisition.
Variable env : Env.
Variable cfg : Config.

(** What a resumption leaves alone. *)
Lemma resume_frame i w :
  window (resume env cfg i w) = window w /\
  storage (resume env cfg i w) = storage w /\
  isExtension (resume env cfg i w) = isExtension w.
Proof.
  unfold resume. destruct (tasks w !! i) as [[|args|r]|]; try done.
  - destruct (import_ethereum_provider env); [done|].
    by destruct (init_args cfg _).
  - by destruct (EthereumProvider_init env args).
Qed.

Lemma createProvider_frame w :
  window (snd (createProvider w)) = window w /\
  storage (snd (createProvider w)) = storage w /\
  isExtension (snd (createProvider w)) = isExtension w /\
  provider (snd (createProvider w)) = provider w.
Proof.
  unfold createProvider.
  by destruct (initProviderPromise w) eqn:Hp, (window w) eqn:Hw.
Qed.

Lemma await_frame promise w :
  window (snd (await env cfg promise w)) = window w /\
  storage (snd (await env cfg promise w)) = storage w /\
  isExtension (snd (await env cfg promise w)) = isExtension w.
Proof.
  destruct promise as [i|]; [|done]. unfold await.
  destruct (resume_frame i w) as (H1 & H2 & H3).
  destruct (resume_frame i (resume env cfg i w)) as (K1 & K2 & K3).
  rewrite <- H1, <- H2, <- H3, <- K1, <- K2, <- K3.
  by repeat case_match.
Qed.

Lemma ensure_provider_frame w :
  window (snd (ensure_provider env cfg w)) = window w /\
  storage (snd (ensure_provider env cfg w)) = storage w /\
  isExtension (snd (ensure_provider env cfg w)) = isExtension w.
Proof.
  unfold ensure_provider, bind, gets, ret. destruct (provider w); [done|].
  destruct (createProvider_frame w) as (H1 & H2 & H3 & _).
  destruct (createProvider w) as [promise w1]. simpl in *.
  rewrite <- H1, <- H2, <- H3. apply await_frame.
Qed.

(** [getProvider()] answers the injected provider exactly when
    [window.ronin] is there at the call; it leaves the store alone, and
    the relay path always lowers [#isExtension]. *)
Lemma getProvider_returns switch w p w1 :
  getProvider_with env cfg switch None w = (Return p, w1) ->
  storage w1 = storage w /\
  exists globals, window w1 = Some globals /\
    match win_ronin globals with
    | Some _ =>
        p = InjectedProvider /\ trace w1 = trace w /\ provider w1 = provider w /\
        exists before, window w = Some before /\ is_Some (win_ronin before)
    | None =>
        p = provider_ref w1 /\ isExtension w1 = false /\ window w = Some globals
    end.
Proof.
  unfold getProvider_with, bind, the_window, modify, ret, gets.
  destruct (window w) as [win|] eqn:Hwin; [|done].
  destruct (win_ronin win) as [r|] eqn:Hr.
  - destruct (provider_on r).
    + intros [= <- <-]. split; [done|]. exists win. rewrite Hr.
      repeat (split; [done|]). exists win. rewrite Hr. eauto.
    + intros [= <- <-]. split; [done|]. eexists. split; [done|]. simpl.
      repeat (split; [done|]). exists win. rewrite Hr. eauto.
  - destruct (ensure_provider_frame (set_isExtension false w)) as (H1 & H2 & H3).
    destruct (ensure_provider env cfg (set_isExtension false w)) as [[[]|e] w2];
      simpl in *; [|done].
    intros [= <- <-]. split; [done|]. exists win. rewrite Hr, H1. done.
Qed.

Lemma getProvider_answer w p w1 :
  getProvider env cfg None w = (Return p, w1) ->
  storage w1 = storage w /\
  exists globals, window w1 = Some globals /\
    match win_ronin globals with
    | Some _ =>
        p = InjectedProvider /\ trace w1 = trace w /\ provider w1 = provider w /\
        exists before, window w = Some before /\ is_Some (win_ronin before)
    | None =>
        p = provider_ref w1 /\ isExtension w1 = false /\ window w = Some globals
    end.
Proof. apply getProvider_returns. Qed.

(** The two branches that answer the injected provider: the first returns
    at once and leaves [#isExtension] as it finds it, the second adapts the
    provider and raises [#isExtension]. *)
Lemma getProvider_early_return switch chainId w globals r :
  window w = Some globals -> win_ronin globals = Some r -> provider_on r = true ->
  getProvider_with env cfg switch chainId w = (Return InjectedProvider, w).
Proof.
  intros Hwin Hr Hon. unfold getProvider_with, bind, the_window, ret.
  by rewrite Hwin, Hr, Hon.
Qed.

Lemma getProvider_adapts switch chainId w globals r :
  window w = Some globals -> win_ronin globals = Some r -> provider_on r = false ->
  exists w1,
    getProvider_with env cfg switch chainId w = (Return InjectedProvider, w1) /\
    isExtension w1 = true /\ window w1 = Some {| win_ronin := Some patched |}.
Proof.
  intros Hwin Hr Hon. unfold getProvider_with, bind, the_window, modify, ret.
  rewrite Hwin, Hr, Hon. by eexists.
Qed.

(** With [#isExtension] lowered, an extension whose provider has [on] is
    treated as a relay provider: [getChainId()] reads a field and sends
    nothing. *)
Lemma getChainId_with_stale_transport w globals r :
  window w = Some globals -> win_ronin globals = Some r -> provider_on r = true ->
  isExtension w = false ->
  getChainId env cfg w = (Return Js.Undefined, w).
Proof.
  intros Hwin Hr Hon Hext. unfold getChainId, getProvider, bind.
  rewrite (getProvider_early_return _ _ w globals r Hwin Hr Hon).
  unfold gets. by rewrite Hext.
Qed.

End Acquisition.

(** ** [disconnect] *)

Section Disconnect.
Variable env : Env.
Variable cfg : Config.

Lemma disconnect_finally_runs w :
  exists w3, disconnect_finally w = (Return tt, w3) /\
    trace w3 = trace w ++ relay_teardown (provider w) /\
    storage w3 = insert REQUESTED_CHAINS_KEY (StoredChains []) <$> storage w /\
    provider w3 = provider w /\ isExtension w3 = isExtension w.
Proof.
  unfold disconnect_finally, removeListeners, setRequestedChainsIds,
    storage_setItem, perform, modify, bind, gets, ret.
  destruct (provider w) eqn:Hp; simpl; eexists; (split; [reflexivity|]); simpl.
  - rewrite Hp. repeat split. by rewrite <- !app_assoc.
  - rewrite Hp. repeat split. by rewrite app_nil_r.
Qed.

Lemma requested_chains_reset (w w3 : World) :
  storage w3 = insert REQUESTED_CHAINS_KEY (StoredChains []) <$> storage w ->
  forall m : gmap string StoredValue,
    storage w3 = Some m -> m !! REQUESTED_CHAINS_KEY = Some (StoredChains []).
Proof.
  intros -> m. destruct (storage w) as [m0|]; simpl; [|done].
  intros [= <-]. apply lookup_insert_eq.
Qed.

Lemma shim_key_apart : shimDisconnectKey <> REQUESTED_CHAINS_KEY.
Proof. by vm_compute. Qed.

Lemma reset_keeps_shim (w w3 : World) :
  storage w3 = insert REQUESTED_CHAINS_KEY (StoredChains []) <$> storage w ->
  stored shimDisconnectKey w3 = stored shimDisconnectKey w.
Proof.
  unfold stored. intros ->. destruct (storage w) as [m|]; simpl; [|done].
  apply lookup_insert_ne. intros H. by apply shim_key_apart.
Qed.

(** The injected branch of the [try] block. *)
Lemma disconnect_try_injected p w globals r :
  window w = Some globals -> win_ronin globals = Some r ->
  isExtension w = true ->
  exists w2, disconnect_try env cfg p w = (Return tt, w2) /\
    trace w2 = trace w ++ ronin_teardown ++
               [Emit "change" no_account; Emit "disconnect" Js.Undefined] /\
    storage w2 =
      (if options_shimDisconnect cfg
       then delete shimDisconnectKey <$> storage w else storage w) /\
    provider w2 = provider w.
Proof.
  intros Hwin Hr Hext.
  unfold disconnect_try, ronin_removeEventListener, the_window, emit, when,
    storage_removeItem, perform, modify, bind, gets, ret.
  rewrite Hext. simpl. rewrite Hwin, Hr. simpl. rewrite Hwin, Hr. simpl.
  rewrite Hwin, Hr. simpl.
  destruct (options_shimDisconnect cfg); simpl; eexists; (split; [reflexivity|]);
    simpl; by rewrite <- !app_assoc.
Qed.

(** The relay branch never touches the store. *)
Lemma disconnect_try_relay p w :
  isExtension w = false ->
  storage (snd (try_catch (disconnect_try env cfg p) (disconnect_catch env) w)) = storage w.
Proof.
  intros Hext.
  unfold try_catch, disconnect_try, provider_disconnect, disconnect_catch, emit,
    perform, modify, bind, gets, ret, throw.
  rewrite Hext. destruct p; simpl; repeat case_match; simplify_eq; done.
Qed.

Lemma disconnect_unfold w p w1 r w2 w3 :
  getProvider env cfg None w = (Return p, w1) ->
  try_catch (disconnect_try env cfg p) (disconnect_catch env) w1 = (r, w2) ->
  disconnect_finally w2 = (Return tt, w3) ->
  disconnect env cfg w = (r, w3).
Proof.
  intros Hp Ht Hf. unfold disconnect, bind. rewrite Hp.
  unfold try_finally. by rewrite Ht, Hf.
Qed.

(** C5, as the code has it. Every call of [disconnect()] whose provider
    acquisition succeeds, on either transport and whether the transport's
    disconnect returns or throws, ends with the [finally] step: the relay
    listeners are taken off, when a relay provider exists, and the
    requested chains are stored as the empty list; the call's outcome is
    that of its [try] and [catch].  On the injected transport the three
    listeners are taken off the extension, [change] and [disconnect] are
    emitted, the call succeeds and, with [shimDisconnect] enabled, the
    shim flag is absent afterwards.  On the relay transport, or with
    [shimDisconnect] disabled, the shim flag is left as it was. *)
Theorem disconnect_cleans_up w p w1 :
  getProvider env cfg None w = (Return p, w1) ->
  exists r w2 w3,
    try_catch (disconnect_try env cfg p) (disconnect_catch env) w1 = (r, w2) /\
    disconnect_finally w2 = (Return tt, w3) /\
    disconnect env cfg w = (r, w3) /\
    trace w3 = trace w2 ++ relay_teardown (provider w2) /\
    (forall m : gmap string StoredValue,
       storage w3 = Some m -> m !! REQUESTED_CHAINS_KEY = Some (StoredChains [])) /\
    (isExtension w1 = true ->
       r = Return tt /\
       trace w2 = trace w1 ++ ronin_teardown ++
                  [Emit "change" no_account; Emit "disconnect" Js.Undefined] /\
       (options_shimDisconnect cfg = true -> stored shimDisconnectKey w3 = None)) /\
    (isExtension w1 = false \/ options_shimDisconnect cfg = false ->
       stored shimDisconnectKey w3 = stored shimDisconnectKey w).
Proof.
  intros H.
  destruct (getProvider_answer env cfg _ _ _ H) as (Hst & globals & Hwin & Hcase).
  destruct (try_catch (disconnect_try env cfg p) (disconnect_catch env) w1)
    as [r w2] eqn:Htry.
  destruct (disconnect_finally_runs w2) as (w3 & Hfin & Htr & Hsto & Hprov & Hext).
  exists r, w2, w3. split; [done|]. split; [done|].
  split; [by eapply disconnect_unfold|]. split; [done|].
  split; [by eapply requested_chains_reset|].
  split.
  - intros Hinj. destruct (win_ronin globals) as [ro|] eqn:Hr.
    + destruct (disconnect_try_injected p w1 globals ro Hwin Hr Hinj)
        as (w2' & Htry' & Htr' & Hsto' & _).
      unfold try_catch in Htry. rewrite Htry' in Htry. injection Htry as <- <-.
      split; [done|]. split; [done|]. intros Hshim.
      rewrite (reset_keeps_shim w2' w3 Hsto). unfold stored.
      rewrite Hsto', Hshim. destruct (storage w1); simpl; [|done].
      apply lookup_delete_eq.
    + destruct Hcase as (_ & Hf & _). congruence.
  - intros Hcases. rewrite (reset_keeps_shim w2 w3 Hsto). unfold stored.
    rewrite <- Hst. f_equal.
    destruct (isExtension w1) eqn:Hinj.
    + destruct Hcases as [|Hshim]; [done|].
      destruct (win_ronin globals) as [ro|] eqn:Hr.
      * destruct (disconnect_try_injected p w1 globals ro Hwin Hr Hinj)
          as (w2' & Htry' & _ & Hsto' & _).
        unfold try_catch in Htry. rewrite Htry' in Htry. injection Htry as <- <-.
        by rewrite Hsto', Hshim.
      * destruct Hcase as (_ & Hf & _). congruence.
    + pose proof (disconnect_try_relay p w1 Hinj) as Hk.
      by rewrite Htry in Hk.
Qed.

(** C6. When the relay provider's [disconnect()] throws an error whose
    message contains "No matching key", in any case of letters,
    [disconnect()] absorbs it and resolves; any other thrown value is
    rethrown to the caller (a thrown [null] or [undefined], which has no
    message to read, as the [TypeError] of reading it).  Either way the
    world the caller is left with has the six listeners removed after the
    transport's call and the requested chains stored as the empty list. *)
Theorem relay_disconnect_errors w object w1 error :
  getProvider env cfg None w = (Return (RelayProvider object), w1) ->
  relay_disconnect env (relay w1) = inl error ->
  exists w3,
    trace w3 = trace w1 ++ RelayDisconnect :: relay_teardown (Some object) /\
    (forall m : gmap string StoredValue,
       storage w3 = Some m -> m !! REQUESTED_CHAINS_KEY = Some (StoredChains [])) /\
    (Js.contains_i "No matching key" (message_text env error) ->
       disconnect env cfg w = (Return tt, w3)) /\
    (~ Js.contains_i "No matching key" (message_text env error) ->
       disconnect env cfg w =
         (Throw (if is_nullish error then undefined_has_no "message" else error), w3)).
Proof.
  intros H Herr.
  destruct (getProvider_answer env cfg _ _ _ H) as (Hst & globals & Hwin & Hcase).
  destruct (win_ronin globals); [by destruct Hcase|].
  destruct Hcase as (Hp & Hext & _).
  unfold provider_ref in Hp. destruct (provider w1) as [o|] eqn:Hprov; [|done].
  injection Hp as ->.
  set (w2 := set_trace (trace w1 ++ [RelayDisconnect]) w1).
  destruct (disconnect_finally_runs w2) as (w3 & Hfin & Htr & Hsto & _).
  exists w3. split.
  { rewrite Htr. simpl. rewrite Hprov. by rewrite <- app_assoc. }
  split; [by eapply requested_chains_reset|].
  assert (Htry : disconnect_try env cfg (RelayProvider o) w1 = (Throw error, w2)).
  { unfold disconnect_try, provider_disconnect, perform, modify, bind, gets, ret.
    rewrite Hext. simpl. by rewrite Herr. }
  rewrite <- test_i_false, <- test_i_spec. unfold message_text.
  split; intros Hm.
  - eapply disconnect_unfold; [exact H| |exact Hfin].
    unfold try_catch. rewrite Htry. unfold disconnect_catch.
    destruct error; simpl in *; try discriminate Hm; by rewrite Hm.
  - eapply disconnect_unfold; [exact H| |exact Hfin].
    unfold try_catch. rewrite Htry. unfold disconnect_catch.
    destruct error; simpl in *; try (by rewrite Hm); done.
Qed.

End Disconnect.

(** ** [isAuthorized] *)

Section Authorization.
Variable env : Env.
Variable cfg : Config.

Lemma first_char_none address : first_char address = None <-> address = "".
Proof. by destruct address. Qed.




End Authorization.

(** ** [getProvider] with a chain id *)

Section ChainSwitch.
Variable env : Env.
Variable cfg : Config.

Lemma bind_returns {A B} (m : Async A) (k : A -> Async B) w b w' :
  bind m k w = (Return b, w') ->
  exists a w1, m w = (Return a, w1) /\ k a w1 = (Return b, w').
Proof.
  unfold bind. destruct (m w) as [[a|e] w1]; [eauto|done].
Qed.





End ChainSwitch.

(** ** Concrete runs *)

Import Sample.

(** C1, the claim as written, fails: on the desktop runtime the event
    carries the bare [uri], and no payload of the structured form is
    emitted, whatever its [mobile] flag; on a mobile runtime the bare [uri]
    is emitted as well, before the navigation and not in its place. *)
Lemma onDisplayUri_payload_is_the_bare_uri :
  (forall m, Emit "message" (spec_display_uri "wc:abc" m)
             ∉ trace (snd (onDisplayUri env "wc:abc" browser))) /\
  trace (snd (onDisplayUri (with_mobile true env) "wc:abc" browser)) =
    trace browser ++
    [Emit "message" (display_uri (Js.Str "wc:abc"));
     WindowOpen "https://wallet.roninchain.com/auth-connect?uri=wc:abc"
                "_self" "noreferrer noopener"].
Proof.
  split; [|reflexivity].
  intros m H. vm_compute in H.
  repeat (apply elem_of_cons in H as [H|H]; [by destruct m|]).
  by apply elem_of_nil in H.
Qed.



(** Chain 1 is not configured. *)
Lemma switchChain_unknown_chain_witness :
  switchChain env cfg 1 browser = (Throw ChainNotFound, browser).
Proof.
  apply (switchChain_unknown_chain env cfg 1 browser).
  simpl. intros H. apply list_elem_of_singleton in H. lia.
Defined.

(** Four calls around the two resumptions of the one initialisation. *)
Lemma createProvider_initialises_once_witness :
  let events := [Call; Call; Resume 0%nat; Call; Resume 0%nat; Call] in
  let w := fields (Some page) (Some ∅) in
  fst (run env cfg events w) = [Some 0%nat; Some 0%nat; Some 0%nat; Some 0%nat] /\
  constructions (snd (run env cfg events w)) = 1%nat.
Proof.
  intros events w.
  destruct (createProvider_initialises_once env cfg page events w)
    as (_ & _ & _ & _ & Hbuilt); [reflexivity..|].
  split; [reflexivity|].
  by apply (Hbuilt (Settled None)).
Defined.

(** C4, the claim as written, fails for a connector without chains: two
    calls made while the initialisation is pending share its promise, and
    when it completes [EthereumProvider.init] has not been called once. *)
Lemma no_chain_no_relay_provider :
  let w := fields (Some page) (Some ∅) in
  let run2 := run env no_chains [Call; Call] w in
  let done := run env no_chains [Resume 0%nat; Resume 0%nat] (snd run2) in
  fst run2 = [Some 0%nat; Some 0%nat] /\
  tasks (snd run2) = [AwaitingImport] /\
  tasks (snd done) = [Settled None] /\
  constructions (snd done) = 0%nat /\ provider (snd done) = None.
Proof. by vm_compute. Qed.

(** A disconnect over the relay. *)
Lemma disconnect_cleans_up_witness :
  exists r w3,
    disconnect env cfg returning_browser = (r, w3) /\
    forall m : gmap string StoredValue,
      storage w3 = Some m -> m !! REQUESTED_CHAINS_KEY = Some (StoredChains []).
Proof.
  destruct (disconnect_cleans_up env cfg returning_browser (RelayProvider 0)
              (snd (getProvider env cfg None returning_browser)))
    as (r & w2 & w3 & _ & _ & Hd & _ & Hreq & _); [by vm_compute|].
  by exists r, w3.
Defined.

(** C5, the claim as written, fails twice.  On the relay transport a
    successful [disconnect()] leaves the shim flag a former session with
    the extension persisted; and when the provider cannot be acquired,
    [disconnect()] rejects before its [try]: no listener is taken off and
    the requested chains stay as they were. *)
Lemma relay_disconnect_keeps_the_shim_flag :
  (let after := disconnect env cfg returning_browser in
   stored shimDisconnectKey returning_browser = Some (StoredBool true) /\
   fst after = Return tt /\
   stored shimDisconnectKey (snd after) = Some (StoredBool true)) /\
  (let after := disconnect no_network cfg returning_browser in
   fst after = Throw offline /\
   stored REQUESTED_CHAINS_KEY (snd after) = Some (StoredChains [2020]) /\
   trace (snd after) = trace returning_browser).
Proof. by vm_compute. Qed.

(** A session that is already gone, and a relay that hangs up. *)
Lemma relay_disconnect_errors_witness :
  fst (disconnect ended_session cfg browser) = Return tt /\
  fst (disconnect broken_relay cfg browser) = Throw hang_up.
Proof.
  split.
  - destruct (relay_disconnect_errors ended_session cfg browser 0%nat
                (snd (getProvider ended_session cfg None browser)) gone)
      as (w3 & _ & _ & Habsorbed & _); [by vm_compute|reflexivity|].
    rewrite Habsorbed; [done|].
    by exists "", "No matching key", ". session topic doesn't exist: 7f6e".
  - destruct (relay_disconnect_errors broken_relay cfg browser 0%nat
                (snd (getProvider broken_relay cfg None browser)) hang_up)
      as (w3 & _ & _ & _ & Hrethrown); [by vm_compute|reflexivity|].
    rewrite Hrethrown; [done|]. apply test_i_false. by vm_compute.
Defined.

(** C7. The connector was constructed before the extension arrived, and
    the extension's provider has [on]: [getProvider()] answers the injected
    provider and leaves [#isExtension] lowered, so [getChainId()] reads the
    field [chainId] the relay provider would have and sends no request.
    Had the provider no [on] yet, the next branch of [getProvider] would
    raise [#isExtension], and [getChainId()] ask the wallet for
    [eth_chainId]. *)
Lemma late_extension_is_not_detected :
  getProvider env cfg None late_extension = (Return InjectedProvider, late_extension) /\
  isExtension late_extension = false /\
  getChainId env cfg late_extension = (Return Js.Undefined, late_extension) /\
  isExtension (snd (getProvider env cfg None late_bare_extension)) = true /\
  fst (getChainId env cfg late_bare_extension) = Return (Js.Number (Js.Num 2020)) /\
  trace (snd (getChainId env cfg late_bare_extension)) =
    trace late_bare_extension ++ [InjectedRequest "eth_chainId" []].
Proof. by vm_compute. Qed.






(** Some more runs of the sample collaborators. *)
Example connect_over_the_relay :
  fst (connect env cfg browser) =
    Return {| account := wallet_account;
              chain := (Js.Number (Js.Num 2020), false) |}.
Proof. by vm_compute. Qed.

Example connect_sets_the_shim_flag :
  stored shimDisconnectKey (snd (connect env cfg browser_with_extension)) =
    Some (StoredBool true).
Proof. by vm_compute. Qed.

Example authorized_after_connect :
  fst (isAuthorized env cfg (snd (connect env cfg browser_with_extension))) =
    Return true.
Proof. by vm_compute. Qed.

Example unauthorized_when_every_query_fails :
  fst (isAuthorized failing cfg (snd (connect env cfg browser_with_extension))) =
    Return false /\
  fst (isAuthorized failing cfg browser) = Return false.
Proof. by vm_compute. Qed.

Example getProvider_switches_to_2020 :
  trace (snd (getProvider env cfg (Some 2020) browser)) =
    trace (snd (getProvider env cfg None browser)) ++
    [RelayRequest "wallet_switchEthereumChain"
       [Js.Obj [("chainId", Js.Str "0x7e4")]]].
Proof. by vm_compute. Qed.

Example namespace_chain_ids :
  fst (getNamespaceChainsIds env (snd (connect env cfg browser))) =
    Return [Js.Num 2020].
Proof. by vm_compute. Qed.

(** * Further properties *)

(** ** Relations the computations respect *)

Section Respects.
Context (R : relation World) `{!PreOrder R}.

Lemma respects_ret {A} (a : A) : respects R (ret a).
Proof. intros w. reflexivity. Qed.

Lemma respects_throw {A} e : respects R (@throw A e).
Proof. intros w. reflexivity. Qed.

Lemma respects_gets {A} (f : World -> A) : respects R (gets f).
Proof. intros w. reflexivity. Qed.

Lemma respects_lift_result {A} (r : Exn + A) : respects R (lift_result r).
Proof. destruct r; intros w; reflexivity. Qed.

Lemma respects_bind {A B} (m : Async A) (k : A -> Async B) :
  respects R m -> (forall a, respects R (k a)) -> respects R (bind m k).
Proof.
  intros Hm Hk w. unfold bind. specialize (Hm w).
  destruct (m w) as [[a|e] w1]; simpl in *; [|done].
  etransitivity; [exact Hm|apply Hk].
Qed.

Lemma respects_try_catch {A} (m : Async A) (h : Exn -> Async A) :
  respects R m -> (forall e, respects R (h e)) -> respects R (try_catch m h).
Proof.
  intros Hm Hh w. unfold try_catch. specialize (Hm w).
  destruct (m w) as [[a|e] w1]; simpl in *; [done|].
  etransitivity; [exact Hm|apply Hh].
Qed.

Lemma respects_try_finally {A} (m : Async A) (fin : Async unit) :
  respects R m -> respects R fin -> respects R (try_finally m fin).
Proof.
  intros Hm Hf w. unfold try_finally. specialize (Hm w).
  destruct (m w) as [r w1]; simpl in *. specialize (Hf w1).
  destruct (fin w1) as [[[]|e] w2]; simpl in *; by etransitivity.
Qed.

Lemma respects_when c (m : Async unit) : respects R m -> respects R (when c m).
Proof. intros Hm. destruct c; [done|]. apply respects_ret. Qed.

(** Acquiring the relay provider respects what starting and resuming the
    initialisation respect. *)
Lemma respects_ensure_provider env cfg :
  (forall w, R w (snd (createProvider w))) ->
  (forall i w, R w (resume env cfg i w)) ->
  respects R (ensure_provider env cfg).
Proof.
  intros Hc Hr w. unfold ensure_provider, bind, gets.
  destruct (provider w); [reflexivity|].
  specialize (Hc w). destruct (createProvider w) as [[i|] w1]; cbn [snd] in Hc.
  - assert (R w (resume env cfg i (resume env cfg i w1))) as Hrr.
    { etransitivity; [exact Hc|]. etransitivity; apply Hr. }
    unfold await. by repeat case_match.
  - exact Hc.
Qed.

End Respects.

#[global] Instance unchanged_preorder {B} (f : World -> B) : PreOrder (unchanged f).
Proof.
  split.
  - by intros w.
  - intros w1 w2 w3 H12 H23. unfold unchanged in *. congruence.
Qed.

(** Taking a method apart along its binds, handlers and branches. *)
Ltac open_methods :=
  unfold connect, connect_try, connect_catch, disconnect, disconnect_try,
    disconnect_catch, disconnect_finally, isAuthorized, isAuthorized_try,
    onAccountsChanged, onChainChanged, onDisconnect, onDisplayUri, onConnect,
    getAccount, getChainId, getProvider, getProvider_with, switchChain,
    switch_try, switch_catch, getProvider_with, setupListeners, removeListeners,
    getRequestedChainsIds, push, ronin_addEventListener,
    ronin_removeEventListener, request, provider_session, provider_accounts,
    provider_chainId, provider_connect, provider_enable, provider_disconnect,
    first_of, emit.

Ltac respects_step leaf :=
  lazymatch goal with
  | |- PreOrder _ => typeclasses eauto
  | |- respects _ (bind _ _) => apply respects_bind; [| |intros ?; cbv beta]
  | |- respects _ (try_catch _ _) => apply respects_try_catch; [| |intros ?; cbv beta]
  | |- respects _ (try_finally _ _) => apply respects_try_finally
  | |- respects _ (ret _) => apply respects_ret
  | |- respects _ (throw _) => apply respects_throw
  | |- respects _ (gets _) => apply respects_gets
  | |- respects _ (lift_result _) => apply respects_lift_result
  | |- respects _ (when _ _) => apply respects_when
  | |- respects _ (if ?b then _ else _) => destruct b
  | |- respects _ (match ?x with _ => _ end) => destruct x
  | |- respects _ (let '(_, _) := ?x in _) => destruct x
  | |- respects _ _ => leaf
  end.

Ltac respects_all leaf := open_methods; repeat respects_step leaf.

(** ** What an action writes, and what it emits *)

Section Confined.
Variable env : Env.
Variable cfg : Config.

Lemma stored_insert_ne key k v w :
  k <> key ->
  stored k (set_storage (insert key v <$> storage w) w) = stored k w.
Proof.
  intros Hne. unfold stored. simpl. destruct (storage w); simpl; [|done].
  by apply lookup_insert_ne.
Qed.

Lemma stored_delete_ne key k w :
  k <> key ->
  stored k (set_storage (delete key <$> storage w) w) = stored k w.
Proof.
  intros Hne. unfold stored. simpl. destruct (storage w); simpl; [|done].
  by apply lookup_delete_ne.
Qed.

Lemma createProvider_keeps_store w : storage (snd (createProvider w)) = storage w.
Proof. by destruct (createProvider_frame w) as (_ & H & _). Qed.

Lemma resume_keeps_store i w : storage (resume env cfg i w) = storage w.
Proof. by destruct (resume_frame env cfg i w) as (_ & H & _). Qed.

Ltac plain_leaf :=
  by (intros w; unfold unchanged, the_window, perform, modify,
        storage_getItem, getNamespaceChainsIds, getNamespaceMethods;
      simpl; repeat case_match; simpl).

Section Key.
Variable k : string.
Hypothesis not_requested : k <> REQUESTED_CHAINS_KEY.

Ltac key_leaf :=
  first
  [ apply respects_ensure_provider;
    [typeclasses eauto
    |intros w; unfold unchanged, stored; by rewrite createProvider_keeps_store
    |intros i w; unfold unchanged, stored; by rewrite resume_keeps_store]
  | by (intros w; apply stored_insert_ne)
  | by (intros w; apply stored_delete_ne)
  | plain_leaf ].

Lemma getProvider_key chainId :
  respects (unchanged (stored k)) (getProvider env cfg chainId).
Proof. respects_all key_leaf. Qed.

Lemma switchChain_key chainId :
  respects (unchanged (stored k)) (switchChain env cfg chainId).
Proof. respects_all key_leaf. Qed.

Lemma onDisconnect_key : respects (unchanged (stored k)) onDisconnect.
Proof. respects_all key_leaf. Qed.

Hypothesis not_shim : k <> shimDisconnectKey.

Lemma connect_key : respects (unchanged (stored k)) (connect env cfg).
Proof. respects_all key_leaf. Qed.

Lemma disconnect_key : respects (unchanged (stored k)) (disconnect env cfg).
Proof. respects_all key_leaf. Qed.

End Key.

Ltac store_leaf :=
  first
  [ apply respects_ensure_provider;
    [typeclasses eauto
    |intros w; apply createProvider_keeps_store
    |intros i w; apply resume_keeps_store]
  | plain_leaf ].

Lemma getProvider_store : respects (unchanged storage) (getProvider env cfg None).
Proof. respects_all store_leaf. Qed.

Lemma getAccount_store : respects (unchanged storage) (getAccount env cfg).
Proof. respects_all store_leaf. Qed.

Lemma getChainId_store : respects (unchanged storage) (getChainId env cfg).
Proof. respects_all store_leaf. Qed.

Lemma isAuthorized_store : respects (unchanged storage) (isAuthorized env cfg).
Proof. respects_all store_leaf. Qed.

Lemma onAccountsChanged_store :
  respects (unchanged storage) (onAccountsChanged env cfg).
Proof. respects_all store_leaf. Qed.

Lemma onChainChanged_store : respects (unchanged storage) (onChainChanged env cfg).
Proof. respects_all store_leaf. Qed.

Lemma onDisplayUri_store uri : respects (unchanged storage) (onDisplayUri env uri).
Proof. respects_all store_leaf. Qed.

Lemma onConnect_store : respects (unchanged storage) onConnect.
Proof. respects_all store_leaf. Qed.

(** One action that may not write the store leaves it as it is. *)
Lemma after_keeps_store a w :
  may_write a = [] -> storage (after env cfg a w) = storage w.
Proof.
  destruct a as [| | | |[c|]| | | | | | | | |]; try discriminate; intros _; simpl.
  - apply getAccount_store.
  - apply getChainId_store.
  - apply getProvider_store.
  - apply isAuthorized_store.
  - apply onAccountsChanged_store.
  - apply onChainChanged_store.
  - apply onDisplayUri_store.
  - apply onConnect_store.
  - apply resume_keeps_store.
  - done.
Qed.

Lemma after_keeps_key a k w :
  k ∉ may_write a -> stored k (after env cfg a w) = stored k w.
Proof.
  intros Hk.
  destruct (decide (may_write a = [])) as [Hnone|Hsome].
  { unfold stored. by rewrite after_keeps_store. }
  destruct a as [| | | |[c|]| | | | | | | | |]; try done; simpl in Hk;
    repeat (apply not_elem_of_cons in Hk as [? Hk]); simpl.
  - by apply connect_key.
  - by apply disconnect_key.
  - by apply getProvider_key.
  - by apply switchChain_key.
  - by apply onDisconnect_key.
Qed.

(** X1. Whatever the host calls, the transports fire and the page does, in
    any order and whether the calls succeed or reject, the store changes
    only under the keys the actions may write: [connect] and [disconnect]
    under the shim flag and the requested chains, [switchChain],
    [getProvider] with a chain id and the relay's [disconnect] event under
    the requested chains, everything else under none.  Every other key of
    the shared store reads as before, and a run of actions that may write
    nothing leaves the whole store as it was. *)
Theorem writes_are_confined actions k w :
  (Forall (fun a => k ∉ may_write a) actions ->
   stored k (after_all env cfg actions w) = stored k w) /\
  (Forall (fun a => may_write a = []) actions ->
   storage (after_all env cfg actions w) = storage w).
Proof.
  split; revert w; induction actions as [|a actions IH]; intros w Hall; simpl;
    try done; inversion Hall as [|? ? Ha Hrest]; subst.
  - rewrite IH by done. by apply after_keeps_key.
  - rewrite IH by done. by apply after_keeps_store.
Qed.

End Confined.

(** ** What emits *)

Section Emission.
Variable env : Env.
Variable cfg : Config.

Lemma emitted_perform e w :
  is_emit e = false -> emitted (set_trace (trace w ++ [e]) w) = emitted w.
Proof.
  intros He. unfold emitted. cbn [trace set_trace].
  rewrite filter_app, filter_cons, filter_nil.
  rewrite decide_False by (rewrite He; done). apply app_nil_r.
Qed.

Lemma emitted_emit event payload w :
  emitted (set_trace (trace w ++ [Emit event payload]) w) =
    emitted w ++ [Emit event payload].
Proof.
  unfold emitted. cbn [trace set_trace].
  rewrite filter_app, filter_cons, filter_nil. by rewrite decide_True.
Qed.

Lemma createProvider_emitted w : emitted (snd (createProvider w)) = emitted w.
Proof.
  unfold createProvider, initProvider.
  destruct (initProviderPromise w), (window w); try done.
  simpl. by apply emitted_perform.
Qed.

Lemma resume_emitted i w : emitted (resume env cfg i w) = emitted w.
Proof.
  unfold resume. destruct (tasks w !! i) as [[|args|r]|]; try done.
  - destruct (import_ethereum_provider env); [done|].
    destruct (init_args cfg _); [|done]. by apply emitted_perform.
  - by destruct (EthereumProvider_init env args).
Qed.

Ltac silent_leaf :=
  first
  [ apply respects_ensure_provider;
    [typeclasses eauto
    |intros w; apply createProvider_emitted
    |intros i w; apply resume_emitted]
  | by (intros w; apply emitted_perform)
  | by (intros w; unfold unchanged, the_window, modify, storage_getItem,
          storage_setItem, getNamespaceChainsIds, getNamespaceMethods,
          setRequestedChainsIds; simpl; repeat case_match; simpl) ].

Lemma getProvider_silent chainId :
  respects (unchanged emitted) (getProvider env cfg chainId).
Proof. respects_all silent_leaf. Qed.

Lemma switchChain_silent chainId :
  respects (unchanged emitted) (switchChain env cfg chainId).
Proof. respects_all silent_leaf. Qed.

Lemma getAccount_silent : respects (unchanged emitted) (getAccount env cfg).
Proof. respects_all silent_leaf. Qed.

Lemma getChainId_silent : respects (unchanged emitted) (getChainId env cfg).
Proof. respects_all silent_leaf. Qed.

Lemma isAuthorized_silent : respects (unchanged emitted) (isAuthorized env cfg).
Proof. respects_all silent_leaf. Qed.

Lemma after_silent a w :
  may_emit a = false -> emitted (after env cfg a w) = emitted w.
Proof.
  destruct a; try discriminate; intros _; simpl.
  - apply getAccount_silent.
  - apply getChainId_silent.
  - apply getProvider_silent.
  - apply isAuthorized_silent.
  - apply switchChain_silent.
  - apply resume_emitted.
  - done.
Qed.

(** X2. The queries [getAccount], [getChainId], [getProvider] and
    [isAuthorized], the chain switch (also a successful one) and the
    progress of the initialisation emit no event: through any run of them,
    succeeding or rejecting, the events emitted so far stay the same. *)
Theorem queries_and_switches_emit_nothing actions w :
  Forall (fun a => may_emit a = false) actions ->
  emitted (after_all env cfg actions w) = emitted w.
Proof.
  revert w; induction actions as [|a actions IH]; intros w Hall; simpl; [done|].
  inversion Hall as [|? ? Ha Hrest]; subst.
  rewrite IH by done. by apply after_silent.
Qed.

End Emission.

(** ** One relay provider, for good *)

Section OneProvider.
Variable env : Env.
Variable cfg : Config.

#[global] Instance keeps_relay_provider_preorder :
  PreOrder (keeps_relay_provider env cfg).
Proof.
  split.
  - by intros w H.
  - intros w1 w2 w3 H12 H23 H1.
    destruct (H12 H1) as [H2 Hp2]. destruct (H23 H2) as [H3 Hp3].
    split; [done|]. intros o Ho. apply Hp3, Hp2, Ho.
Qed.

Lemma same_initialisation_keeps w w' :
  same_initialisation w w' -> keeps_relay_provider env cfg w w'.
Proof.
  intros (Hp & Ht & Hc & Hprov) [Hinit Hzero].
  unfold one_relay_provider, initialised_once in *.
  rewrite Hp, Ht, Hc, Hprov. done.
Qed.

Lemma same_initialisation_perform e w :
  is_construction e = false ->
  same_initialisation w (set_trace (trace w ++ [e]) w).
Proof.
  intros He. repeat split. rewrite constructions_perform, He. lia.
Qed.

Lemma createProvider_keeps w :
  keeps_relay_provider env cfg w (snd (createProvider w)).
Proof.
  intros [Hinit Hzero].
  destruct (createProvider_frame w) as (_ & _ & _ & Hprov).
  split; [split|].
  - destruct (window w) as [globals|] eqn:Hwin.
    + by destruct (createProvider_once env cfg globals w Hwin Hinit) as (_ & _ & H).
    + unfold createProvider. rewrite Hwin. by destruct (initProviderPromise w).
  - intros o Ho. rewrite Hprov in Ho. auto.
  - intros o Ho. by rewrite Hprov.
Qed.

Lemma resume_initialised i w :
  initialised_once env cfg w -> initialised_once env cfg (resume env cfg i w).
Proof.
  unfold initialised_once, resume. intros Hinv.
  destruct (initProviderPromise w) as [p|] eqn:Hp.
  - destruct Hinv as (-> & st & Ht & Hc & Hb). rewrite Ht.
    destruct i as [|i]; simpl; [|rewrite Hp; eauto 10].
    destruct st as [|args|r]; simpl.
    + unfold built_so_far, built in *. destruct (import_ethereum_provider env); simpl.
      * rewrite Hp. split; [done|]. eexists. repeat split; done.
      * destruct (init_args cfg _) as [args|]; simpl; rewrite Hp.
        -- split; [done|]. eexists. split; [done|]. split; [|done].
           change (constructions (set_trace (trace w ++ [EthereumProviderInit args]) w)
                   = 1%nat).
           rewrite constructions_perform, Hc. reflexivity.
        -- split; [done|]. eexists. repeat split; done.
    + destruct (EthereumProvider_init env args); simpl; rewrite Hp;
        (split; [done|]); eexists; (split; [done|]); split; done.
    + rewrite Hp. eauto 10.
  - destruct Hinv as [Ht Hc]. rewrite Ht. simpl. by rewrite Hp.
Qed.

Lemma resume_provider i w :
  initialised_once env cfg w ->
  provider (resume env cfg i w) = provider w \/
  provider (resume env cfg i w) = Some 0%nat.
Proof.
  unfold initialised_once, resume. intros Hinv.
  destruct (tasks w !! i) as [[|args|r]|] eqn:Hi; auto.
  - destruct (import_ethereum_provider env); auto.
    destruct (init_args cfg _); auto.
  - destruct (EthereumProvider_init env args); auto. right. simpl.
    destruct (initProviderPromise w).
    + destruct Hinv as (_ & st & Ht & _). rewrite Ht in Hi.
      destruct i; [done|]. simpl in Hi. by rewrite lookup_nil in Hi.
    + destruct Hinv as [Ht _]. by rewrite Ht, lookup_nil in Hi.
Qed.

Lemma resume_keeps i w : keeps_relay_provider env cfg w (resume env cfg i w).
Proof.
  intros [Hinit Hzero].
  pose proof (resume_initialised i w Hinit) as Hinit'.
  destruct (resume_provider i w Hinit) as [Hp|Hp].
  - split; [split; [done|]|]; rewrite Hp; auto.
  - split; [split; [done|]|]; rewrite Hp.
    + by intros o [= <-].
    + intros o Ho. by rewrite (Hzero o Ho).
Qed.

Ltac relay_leaf :=
  first
  [ apply respects_ensure_provider;
    [typeclasses eauto|apply createProvider_keeps|apply resume_keeps]
  | by (intros w; apply same_initialisation_keeps, same_initialisation_perform)
  | by (intros w; apply same_initialisation_keeps;
        unfold the_window, modify, storage_getItem, storage_setItem,
          storage_removeItem, getNamespaceChainsIds, getNamespaceMethods,
          setRequestedChainsIds;
        simpl; repeat case_match; simpl) ].

Lemma after_keeps a w : keeps_relay_provider env cfg w (after env cfg a w).
Proof.
  destruct a; simpl.
  - revert w. change (respects (keeps_relay_provider env cfg) (connect env cfg)).
    respects_all relay_leaf.
  - revert w. change (respects (keeps_relay_provider env cfg) (disconnect env cfg)).
    respects_all relay_leaf.
  - revert w. change (respects (keeps_relay_provider env cfg) (getAccount env cfg)).
    respects_all relay_leaf.
  - revert w. change (respects (keeps_relay_provider env cfg) (getChainId env cfg)).
    respects_all relay_leaf.
  - revert w.
    change (respects (keeps_relay_provider env cfg) (getProvider env cfg chainId)).
    respects_all relay_leaf.
  - revert w. change (respects (keeps_relay_provider env cfg) (isAuthorized env cfg)).
    respects_all relay_leaf.
  - revert w.
    change (respects (keeps_relay_provider env cfg) (switchChain env cfg chainId)).
    respects_all relay_leaf.
  - revert w.
    change (respects (keeps_relay_provider env cfg) (onAccountsChanged env cfg)).
    respects_all relay_leaf.
  - revert w.
    change (respects (keeps_relay_provider env cfg) (onChainChanged env cfg)).
    respects_all relay_leaf.
  - revert w. change (respects (keeps_relay_provider env cfg) onDisconnect).
    respects_all relay_leaf.
  - revert w. change (respects (keeps_relay_provider env cfg) (onDisplayUri env uri)).
    respects_all relay_leaf.
  - revert w. change (respects (keeps_relay_provider env cfg) onConnect).
    respects_all relay_leaf.
  - apply resume_keeps.
  - by apply same_initialisation_keeps.
Qed.

Lemma after_all_keeps actions : forall w,
  keeps_relay_provider env cfg w (after_all env cfg actions w).
Proof.
  induction actions as [|a actions IH]; intros w; simpl; [reflexivity|].
  etransitivity; [apply after_keeps|apply IH].
Qed.

Lemma after_all_app actions more w :
  after_all env cfg (actions ++ more) w =
    after_all env cfg more (after_all env cfg actions w).
Proof. apply fold_left_app. Qed.

Lemma constructor_one_relay_provider globals store :
  one_relay_provider env cfg (constructor globals store).
Proof.
  assert (one_relay_provider env cfg (fields globals store)) as Hfields.
  { split; [|done]. unfold initialised_once. by simpl. }
  unfold constructor. destruct (negb (isExtension (fields globals store))); [|done].
  by apply createProvider_keeps.
Qed.

(** X3. Through the whole life of a connector, whatever the host calls,
    the transports fire, the event loop resumes and the page does, in any
    order: [#initProvider] is started at most once,
    [EthereumProvider.init] is called at most once, and [#provider] is
    unset or holds the one provider that call built; once it holds it, no
    later action unsets or replaces it. *)
Theorem relay_provider_is_built_once globals store actions more :
  let w := after_all env cfg actions (constructor globals store) in
  (length (tasks w) <= 1)%nat /\ (constructions w <= 1)%nat /\
  (provider w = None \/ provider w = Some 0%nat) /\
  (forall o, provider w = Some o ->
     provider (after_all env cfg (actions ++ more) (constructor globals store)) =
       Some o).
Proof.
  intros w.
  destruct (after_all_keeps actions _ (constructor_one_relay_provider globals store))
    as [[Hinit Hzero] _]. fold w in Hinit, Hzero.
  unfold initialised_once in Hinit. pose proof (built_le env cfg) as Hle.
  repeat split.
  - destruct (initProviderPromise w); [|destruct Hinit as [-> _]; simpl; lia].
    destruct Hinit as (_ & st & -> & _). simpl. lia.
  - destruct (initProviderPromise w); [|destruct Hinit as [_ ->]; lia].
    destruct Hinit as (_ & st & _ & -> & _). destruct st; simpl; lia.
  - destruct (provider w) as [o|] eqn:Ho; [right|by left]. by rewrite (Hzero o).
  - intros o Ho. rewrite after_all_app. fold w.
    by apply (after_all_keeps more w).
Qed.

End OneProvider.

(** ** The arguments of [EthereumProvider.init] *)

Section InitArgs.
Variable cfg : Config.


End InitArgs.

(** ** The two patterns side by side *)

Section Patterns.
Variable env : Env.

(** X5. What [switchChain] takes for a rejection by the user, [connect]
    takes for one too, as long as it is not a bare string: for a thrown
    value that is not a string, if the [catch] of [switchChain] answers
    [UserRejected], so does the [catch] of [connect].  A thrown string,
    which [switchChain] tests as it is, is never normalised by [connect]:
    it reaches the caller unchanged whatever it says. *)
Theorem switch_rejection_is_connect_rejection error w w' :
  (is_thrown_string error = None ->
   fst (switch_catch env error w) = Throw (UserRejected error) ->
   fst (connect_catch env error w') = Throw (UserRejected error)) /\
  (forall text,
     fst (connect_catch env (ThrownString text) w') = Throw (ThrownString text)).
Proof.
  split.
  - intros Hs. rewrite switch_catch_spec, connect_catch_spec. simpl.
    unfold switch_text, message_text. rewrite Hs.
    destruct (Js.test_i "user rejected request" _) eqn:Hlong; [|done]. intros _.
    apply test_i_spec in Hlong.
    apply (contains_i_shorter "user rejected" " request") in Hlong.
    apply test_i_spec in Hlong. by rewrite Hlong.
  - intros text. by rewrite connect_catch_spec.
Qed.

End Patterns.

(** ** More on [switchChain] and [getProvider] *)

Section Switching.
Variable env : Env.
Variable cfg : Config.

(** X6. [switchChain(chainId)] resolves only to a configured chain: the
    first chain of the connector's list whose id is [chainId]. *)
Theorem switchChain_answers_the_configured_chain chainId w chain w' :
  switchChain env cfg chainId w = (Return chain, w') ->
  find (fun c => chain_id c =? chainId) (chains cfg) = Some chain /\
  chain ∈ chains cfg /\ chain_id chain = chainId.
Proof.
  unfold switchChain.
  destruct (find _ (chains cfg)) as [c|] eqn:Hfind; [|done].
  unfold try_catch.
  destruct (switch_try env cfg chainId c w) as [[c'|x] w1] eqn:Htry.
  2: { rewrite switch_catch_spec. done. }
  intros [= -> ->]. unfold switch_try in Htry.
  repeat (apply bind_returns in Htry as (? & ? & _ & Htry)).
  injection Htry as -> _.
  split; [done|]. apply find_some in Hfind as [Hin Heq].
  split; [by apply list_elem_of_In|by apply Z.eqb_eq].
Qed.

Lemma lowered_again w : isExtension w = false -> set_isExtension false w = w.
Proof. destruct w. simpl. by intros ->. Qed.

Lemma resume_settled i w r :
  tasks w !! i = Some (Settled r) -> resume env cfg i w = w.
Proof. intros H. unfold resume. by rewrite H. Qed.

Lemma ensure_provider_rejected w i e :
  provider w = None ->
  initProviderPromise w = Some i -> tasks w !! i = Some (Settled (Some e)) ->
  ensure_provider env cfg w = (Throw e, w).
Proof.
  intros Hprov Hp Ht. unfold ensure_provider, bind, gets. rewrite Hprov.
  unfold createProvider. rewrite Hp. cbn [fst snd]. rewrite Hp. unfold await.
  rewrite !(resume_settled i w (Some e) Ht). by rewrite Ht.
Qed.

(** X7. A failed initialisation is not retried.  Once the promise of
    [#createProvider] is rejected, every [getProvider] on a page without
    the extension rejects with the same value, and does nothing else: no
    new import, no change but [#isExtension] lowered. *)
Theorem failed_initialisation_is_not_retried chainId w globals i e :
  window w = Some globals -> win_ronin globals = None ->
  provider w = None ->
  initProviderPromise w = Some i -> tasks w !! i = Some (Settled (Some e)) ->
  getProvider env cfg chainId w = (Throw e, set_isExtension false w).
Proof.
  intros Hwin Hr Hprov Hp Ht.
  unfold getProvider, getProvider_with, bind, the_window, modify.
  rewrite Hwin, Hr. by rewrite (ensure_provider_rejected _ i e).
Qed.

Lemma ensure_provider_again w w1 :
  ensure_provider env cfg w = (Return tt, w1) ->
  ensure_provider env cfg w1 = (Return tt, w1).
Proof.
  unfold ensure_provider, bind, gets. cbn [fst snd].
  destruct (provider w) as [o|] eqn:Hprov.
  { intros [= <-]. by rewrite Hprov. }
  pose proof (createProvider_stores w) as Hstored.
  destruct (createProvider w) as [promise w'] eqn:Hcreate.
  cbn [fst snd] in Hstored. subst promise.
  destruct (provider w1) as [o|] eqn:Hprov1; [done|].
  destruct (initProviderPromise w') as [i|] eqn:Hp'.
  - unfold await at 1.
    destruct (tasks (resume env cfg i (resume env cfg i w')) !! i)
      as [[| |[e|]]|] eqn:Ht; try done.
    intros [= <-].
    unfold createProvider. rewrite !resume_keeps_promise, Hp'.
    cbn [fst snd]. rewrite !resume_keeps_promise, Hp'. unfold await.
    rewrite !(resume_settled i _ None Ht). by rewrite Ht.
  - intros [= <-]. unfold createProvider in *.
    destruct (initProviderPromise w) eqn:Hp; [by simplify_eq|].
    destruct (window w) eqn:Hwin; [done|].
    injection Hcreate as _ <-. by rewrite Hp, Hwin, Hp.
Qed.

(** X8. [getProvider()] is idempotent: asked again right after it
    answered, it answers the same provider and changes nothing, neither the
    world nor the log of calls. *)
Theorem getProvider_again w p w1 :
  getProvider env cfg None w = (Return p, w1) ->
  getProvider env cfg None w1 = (Return p, w1).
Proof.
  intros H. unfold getProvider in *.
  pose proof (getProvider_returns env cfg _ _ _ _ H) as (_ & globals & Hwin1 & Hcase).
  destruct (win_ronin globals) as [r|] eqn:Hr.
  - destruct Hcase as (-> & _ & _ & before & Hwin & [r0 Hr0]).
    unfold getProvider_with, bind, the_window, modify, ret in H.
    rewrite Hwin, Hr0 in H.
    destruct (provider_on r0) eqn:Hon.
    + injection H as <-. by apply (getProvider_early_return _ _ _ _ w before r0).
    + injection H as <-.
      by apply (getProvider_early_return _ _ _ _ _
                  {| win_ronin := Some patched |} patched).
  - destruct Hcase as (-> & Hext & Hwin).
    unfold getProvider_with in H.
    apply bind_returns in H as (win & wa & Hthe & H).
    unfold the_window in Hthe. rewrite Hwin in Hthe. injection Hthe as <- <-.
    rewrite Hr in H.
    apply bind_returns in H as ([] & wb & Hlow & H).
    injection Hlow as <-.
    apply bind_returns in H as ([] & wc & Hens & H).
    apply bind_returns in H as ([] & wd & Hnone & H).
    injection Hnone as <-.
    apply bind_returns in H as (q & we & Hq & H).
    injection Hq as <- <-. injection H as _ <-.
    apply ensure_provider_again in Hens.
    unfold getProvider_with, bind, the_window, modify, gets, ret.
    rewrite Hwin1, Hr. rewrite (lowered_again wc Hext). by rewrite Hens.
Qed.

End Switching.

(** ** The chains of the session *)

Section Namespace.
Variable env : Env.

Lemma split_on_plain sep s :
  mentions sep s = false -> Js.split_on sep s = [s].
Proof.
  induction s as [|c s IH]; simpl; [done|].
  destruct (ascii_dec c sep); [done|]. simpl. intros H. by rewrite IH.
Qed.

Lemma split_on_sep sep before rest :
  mentions sep before = false ->
  Js.split_on sep (before +:+ String sep rest) = before :: Js.split_on sep rest.
Proof.
  induction before as [|c s IH]; simpl.
  - intros _. by destruct (ascii_dec sep sep).
  - destruct (ascii_dec c sep); [done|]. simpl. intros H. by rewrite IH.
Qed.

(** X9. The chain reference the connector reads off an id of the session:
    for [namespace:reference] without any other colon it is the reference,
    and for an id without a colon it is the empty string, which [parseInt]
    is then asked to read. *)
Theorem reference_of_chain_id namespace reference :
  mentions ":" namespace = false ->
  (mentions ":" reference = false ->
   reference_of (namespace +:+ ":" +:+ reference) = reference) /\
  reference_of namespace = "".
Proof.
  intros Hn. split.
  - intros Hr. unfold reference_of.
    change (":" +:+ reference) with (String ":"%char reference).
    rewrite split_on_sep, split_on_plain by done. simpl. by destruct reference.
  - unfold reference_of. by rewrite split_on_plain.
Qed.

End Namespace.

(** ** Through the extension *)

Section Extension.
Variable env : Env.
Variable cfg : Config.

(** With [window.ronin] there, [getProvider] answers the extension's
    provider, adapted, and touches nothing else. *)
Lemma getProvider_injected switch chainId w globals r :
  window w = Some globals -> win_ronin globals = Some r ->
  exists w1 r1,
    getProvider_with env cfg switch chainId w = (Return InjectedProvider, w1) /\
    window w1 = Some {| win_ronin := Some r1 |} /\ provider_on r1 = true /\
    isExtension w1 = (isExtension w || negb (provider_on r)) /\
    trace w1 = trace w /\ storage w1 = storage w /\ provider w1 = provider w /\
    relay w1 = relay w.
Proof.
  intros Hwin Hr. unfold getProvider_with, bind, the_window, modify, ret.
  rewrite Hwin, Hr. destruct (provider_on r) eqn:Hon.
  - exists w, r. rewrite orb_false_r. destruct globals; simpl in *; subst. done.
  - exists (set_isExtension true (set_window (Some {| win_ronin := Some patched |}) w)),
      patched.
    simpl. by rewrite orb_true_r.
Qed.

Lemma perform_returns e w u w' :
  perform e w = (Return u, w') -> w' = set_trace (trace w ++ [e]) w.
Proof. by intros [= _ <-]. Qed.

Lemma ronin_addEventListener_returns event h w r1 u w' :
  window w = Some {| win_ronin := Some r1 |} ->
  ronin_addEventListener event h w = (Return u, w') ->
  w' = set_trace (trace w ++ [RoninAddEventListener event h]) w.
Proof.
  intros Hwin. unfold ronin_addEventListener, bind, the_window. rewrite Hwin.
  apply perform_returns.
Qed.

Lemma injected_request_returns method params w v w' :
  request env InjectedProvider method params w = (Return v, w') ->
  injected_request env method params = inr v /\
  w' = set_trace (trace w ++ [InjectedRequest method params]) w.
Proof.
  unfold request, bind, perform, modify, lift_result, throw, ret.
  destruct (injected_request env method params); [done|]. by intros [= <- <-].
Qed.

Lemma first_of_returns v w first w' :
  first_of v w = (Return first, w') -> w' = w.
Proof.
  unfold first_of, ret, throw. repeat case_match; by intros [= _ <-].
Qed.

Lemma lift_result_returns {A} (r : Exn + A) w a w' :
  lift_result r w = (Return a, w') -> r = inr a /\ w' = w.
Proof. destruct r; [done|]. by intros [= <- <-]. Qed.

Lemma getChainId_injected w r1 id w' :
  window w = Some {| win_ronin := Some r1 |} -> provider_on r1 = true ->
  isExtension w = true ->
  getChainId env cfg w = (Return id, w') ->
  exists answer, injected_request env "eth_chainId" [] = inr answer /\
    id = Js.Number (js_Number env answer) /\
    w' = set_trace (trace w ++ [InjectedRequest "eth_chainId" []]) w.
Proof.
  intros Hwin Hon Hext. unfold getChainId, getProvider, bind.
  rewrite (getProvider_early_return env cfg _ _ w _ r1 Hwin eq_refl Hon).
  unfold gets. rewrite Hext. cbn [negb].
  destruct (request env InjectedProvider "eth_chainId" [] w) as [[v|e] w1] eqn:Hreq;
    [|done].
  apply injected_request_returns in Hreq as [Hv ->]. intros [= <- <-]. eauto.
Qed.

(** X10. A [connect()] that succeeds through the extension has done this,
    in this order and nothing else: put its three listeners on the
    extension, emitted [message] with [connecting], sent
    [eth_requestAccounts], sent [eth_chainId], and emitted [connect] with
    the account and chain it returns.  The chain id it returns is [Number]
    of the wallet's answer to [eth_chainId].  With [shimDisconnect]
    enabled the shim flag is stored as [true], and the store is otherwise
    as before; the relay provider is not touched. *)
Theorem connect_through_the_extension w globals r result w' :
  window w = Some globals -> win_ronin globals = Some r -> isExtension w = true ->
  connect env cfg w = (Return result, w') ->
  trace w' = trace w ++ ronin_setup ++
    [Emit "message" connecting;
     InjectedRequest "eth_requestAccounts" [];
     InjectedRequest "eth_chainId" [];
     Emit "connect" (Js.Obj [("account", Js.Str (@account result));
                             ("chain", chain_payload (@chain result))])] /\
  storage w' =
    (if options_shimDisconnect cfg
     then insert shimDisconnectKey (StoredBool true) <$> storage w
     else storage w) /\
  (exists answer, injected_request env "eth_chainId" [] = inr answer /\
     fst (@chain result) = Js.Number (js_Number env answer)) /\
  snd (@chain result) = isChainUnsupported cfg (fst (@chain result)) /\
  isExtension w' = true /\ provider w' = provider w /\ relay w' = relay w.
Proof.
  intros Hwin Hr Hext. unfold connect, try_catch.
  destruct (connect_try env cfg w) as [[res|e] w1] eqn:Htry;
    [|by rewrite connect_catch_spec].
  intros [= <- <-]. unfold connect_try in Htry.
  destruct (getProvider_injected (fun c => switchChain env cfg c ;; ret tt)%async
              None w globals r Hwin Hr)
    as (wa & r1 & Hget & Hwa & Hon & Hea & Hta & Hsa & Hpa & Hra).
  rewrite Hext in Hea. cbn [orb] in Hea.
  apply bind_returns in Htry as (p & wa' & Hget' & Htry).
  unfold getProvider in Hget'. rewrite Hget in Hget'. injection Hget' as <- <-.
  apply bind_returns in Htry as (ext & wb & Hgets & Htry).
  injection Hgets as <- <-. rewrite Hea in Htry.
  apply bind_returns in Htry as (u1 & w2 & H1 & Htry).
  apply (ronin_addEventListener_returns _ _ _ r1) in H1 as ->; [|exact Hwa].
  apply bind_returns in Htry as (u2 & w3 & H2 & Htry).
  apply (ronin_addEventListener_returns _ _ _ r1) in H2 as ->; [|exact Hwa].
  apply bind_returns in Htry as (u3 & w4 & H3 & Htry).
  apply (ronin_addEventListener_returns _ _ _ r1) in H3 as ->; [|exact Hwa].
  apply bind_returns in Htry as (u4 & w5 & H4 & Htry).
  apply perform_returns in H4 as ->.
  apply bind_returns in Htry as (accounts & w6 & H5 & Htry).
  apply injected_request_returns in H5 as [_ ->].
  apply bind_returns in Htry as (first & w7 & H6 & Htry).
  apply first_of_returns in H6 as ->.
  apply bind_returns in Htry as (address & w8 & H7 & Htry).
  apply lift_result_returns in H7 as [_ ->].
  apply bind_returns in Htry as (id & w9 & H8 & Htry).
  apply (getChainId_injected _ r1) in H8 as (answer & Hanswer & -> & ->);
    [|exact Hwa|exact Hon|exact Hea].
  apply bind_returns in Htry as (u5 & w10 & H9 & Htry).
  apply bind_returns in Htry as (u6 & w11 & H10 & Htry).
  apply perform_returns in H10 as ->.
  injection Htry as <- <-.
  assert (trace w10 = trace wa ++ ronin_setup ++
            [Emit "message" connecting; InjectedRequest "eth_requestAccounts" [];
             InjectedRequest "eth_chainId" []] /\
          storage w10 =
            (if options_shimDisconnect cfg
             then insert shimDisconnectKey (StoredBool true) <$> storage wa
             else storage wa) /\
          isExtension w10 = true /\ provider w10 = provider wa /\
          relay w10 = relay wa) as (Ht & Hs & He & Hp & Hrl).
  { unfold when, storage_setItem, modify, ret in H9.
    destruct (options_shimDisconnect cfg); injection H9 as _ <-; simpl;
      rewrite <- ?app_assoc; done. }
  simpl. rewrite Ht, Hs, He, Hp, Hrl, Hta, Hsa, Hpa, Hra.
  rewrite <- ?app_assoc. repeat split; eauto.
Qed.

Lemma bind_throws {A B} (m : Async A) (k : A -> Async B) w e w' :
  bind m k w = (Throw e, w') ->
  m w = (Throw e, w') \/
  exists a w1, m w = (Return a, w1) /\ k a w1 = (Throw e, w').
Proof.
  unfold bind. destruct (m w) as [[a|x] w1]; [eauto|]. intros [= <- <-]. by left.
Qed.

Lemma injected_request_throws method params w e w' :
  request env InjectedProvider method params w = (Throw e, w') ->
  w' = set_trace (trace w ++ [InjectedRequest method params]) w.
Proof.
  unfold request, bind, perform, modify, lift_result, throw, ret.
  destruct (injected_request env method params); [|done]. by intros [= _ <-].
Qed.

Lemma first_of_throws v w e w' : first_of v w = (Throw e, w') -> w' = w.
Proof. unfold first_of, ret, throw. repeat case_match; by intros [= _ <-]. Qed.

Lemma lift_result_throws {A} (r : Exn + A) w e w' :
  lift_result r w = (Throw e, w') -> w' = w.
Proof. destruct r; [|done]. by intros [= _ <-]. Qed.

Lemma getChainId_injected_throws w r1 e w' :
  window w = Some {| win_ronin := Some r1 |} -> provider_on r1 = true ->
  isExtension w = true ->
  getChainId env cfg w = (Throw e, w') ->
  w' = set_trace (trace w ++ [InjectedRequest "eth_chainId" []]) w.
Proof.
  intros Hwin Hon Hext. unfold getChainId, getProvider, bind.
  rewrite (getProvider_early_return env cfg _ _ w _ r1 Hwin eq_refl Hon).
  unfold gets. rewrite Hext. cbn [negb].
  destruct (request env InjectedProvider "eth_chainId" [] w) as [[v|x] w1] eqn:Hreq;
    [done|].
  apply injected_request_throws in Hreq as ->. by intros [= _ <-].
Qed.

(** X11. A [connect()] that fails through the extension leaves the store
    as it was: the shim flag is written only once nothing can fail any
    more.  Wherever it fails, it has emitted [message] with [connecting]
    and no other event, so never [connect]. *)
Theorem failed_connect_through_the_extension w globals r e w' :
  window w = Some globals -> win_ronin globals = Some r -> isExtension w = true ->
  connect env cfg w = (Throw e, w') ->
  storage w' = storage w /\
  emitted w' = emitted w ++ [Emit "message" connecting].
Proof.
  intros Hwin Hr Hext. unfold connect, try_catch.
  destruct (connect_try env cfg w) as [[res|x] w1] eqn:Htry; [done|].
  rewrite connect_catch_spec. intros [= _ <-]. unfold connect_try in Htry.
  destruct (getProvider_injected (fun c => switchChain env cfg c ;; ret tt)%async
              None w globals r Hwin Hr)
    as (wa & r1 & Hget & Hwa & Hon & Hea & Hta & Hsa & Hpa & Hra).
  rewrite Hext in Hea. cbn [orb] in Hea.
  assert (emitted wa = emitted w) as Hemitted by (unfold emitted; by rewrite Hta).
  unfold getProvider in Htry.
  apply bind_throws in Htry as [Htry|(p & wa' & Hget' & Htry)];
    [by rewrite Hget in Htry|].
  rewrite Hget in Hget'. injection Hget' as <- <-.
  apply bind_throws in Htry as [Htry|(ext & wb & Hgets & Htry)]; [done|].
  injection Hgets as <- <-. rewrite Hea in Htry.
  apply bind_throws in Htry as [Htry|(u1 & w2 & H1 & Htry)].
  { unfold ronin_addEventListener, bind, the_window in Htry. by rewrite Hwa in Htry. }
  apply (ronin_addEventListener_returns _ _ _ r1) in H1 as ->; [|exact Hwa].
  apply bind_throws in Htry as [Htry|(u2 & w3 & H2 & Htry)].
  { unfold ronin_addEventListener, bind, the_window in Htry. simpl in Htry.
    by rewrite Hwa in Htry. }
  apply (ronin_addEventListener_returns _ _ _ r1) in H2 as ->; [|exact Hwa].
  apply bind_throws in Htry as [Htry|(u3 & w4 & H3 & Htry)].
  { unfold ronin_addEventListener, bind, the_window in Htry. simpl in Htry.
    by rewrite Hwa in Htry. }
  apply (ronin_addEventListener_returns _ _ _ r1) in H3 as ->; [|exact Hwa].
  apply bind_throws in Htry as [Htry|(u4 & w5 & H4 & Htry)]; [done|].
  apply perform_returns in H4 as ->.
  apply bind_throws in Htry as [Htry|(accounts & w6 & H5 & Htry)].
  { apply injected_request_throws in Htry as ->. split; [done|].
    rewrite !emitted_perform, emitted_emit, !emitted_perform by done.
    by rewrite Hemitted. }
  apply injected_request_returns in H5 as [_ ->].
  assert (forall t,
    storage (set_trace t wa) = storage w) as Hstore by (intros t; exact Hsa).
  apply bind_throws in Htry as [Htry|(first & w7 & H6 & Htry)].
  { apply first_of_throws in Htry as ->. split; [done|].
    rewrite !emitted_perform, emitted_emit, !emitted_perform by done.
    by rewrite Hemitted. }
  apply first_of_returns in H6 as ->.
  apply bind_throws in Htry as [Htry|(address & w8 & H7 & Htry)].
  { apply lift_result_throws in Htry as ->. split; [done|].
    rewrite !emitted_perform, emitted_emit, !emitted_perform by done.
    by rewrite Hemitted. }
  apply lift_result_returns in H7 as [_ ->].
  apply bind_throws in Htry as [Htry|(id & w9 & H8 & Htry)].
  { apply (getChainId_injected_throws _ r1) in Htry as ->;
      [|exact Hwa|exact Hon|exact Hea].
    split; [done|].
    rewrite !emitted_perform, emitted_emit, !emitted_perform by done.
    by rewrite Hemitted. }
  exfalso. revert Htry.
  unfold when, storage_setItem, emit, perform, modify, bind, ret.
  by destruct (options_shimDisconnect cfg).
Qed.

Lemma disconnect_try_keeps_flag p :
  respects (unchanged isExtension) (disconnect_try env cfg p).
Proof.
  unfold disconnect_try, ronin_removeEventListener, provider_disconnect, emit,
    storage_removeItem, perform.
  repeat respects_step ltac:(intros ?; unfold unchanged, the_window, modify;
                              repeat case_match; done).
Qed.

(** X12. After a [disconnect()] through the extension, with
    [shimDisconnect] enabled, the connector is not authorized: the
    [disconnect()] resolves and an [isAuthorized()] that follows answers
    [false] without asking the wallet anything, whether or not there is a
    store and whether or not it can be read. *)
Theorem unauthorized_after_disconnect w globals r :
  window w = Some globals -> win_ronin globals = Some r -> isExtension w = true ->
  options_shimDisconnect cfg = true ->
  exists w1, disconnect env cfg w = (Return tt, w1) /\
    isAuthorized env cfg w1 = (Return false, w1).
Proof.
  intros Hwin Hr Hext Hshim.
  destruct (getProvider_injected (fun c => switchChain env cfg c ;; ret tt)%async
              None w globals r Hwin Hr)
    as (wa & r1 & Hget & Hwa & Hon & Hea & Hta & Hsa & Hpa & Hra).
  rewrite Hext in Hea. cbn [orb] in Hea.
  destruct (disconnect_try_injected env cfg InjectedProvider wa _ r1 Hwa eq_refl Hea)
    as (w2 & Htry & Htr & Hsto & Hprov).
  pose proof (disconnect_try_keeps_flag InjectedProvider wa) as Hflag.
  rewrite Htry in Hflag. unfold unchanged in Hflag. cbn [snd] in Hflag.
  destruct (disconnect_finally_runs w2) as (w3 & Hfin & Htr3 & Hsto3 & Hprov3 & Hext3).
  exists w3. split.
  { eapply disconnect_unfold; [exact Hget| |exact Hfin].
    unfold try_catch. by rewrite Htry. }
  assert (stored shimDisconnectKey w3 = None) as Hnone.
  { rewrite (reset_keeps_shim w2 w3 Hsto3). unfold stored.
    rewrite Hsto, Hshim. destruct (storage wa); simpl; [|done].
    apply lookup_delete_eq. }
  unfold isAuthorized, try_catch, isAuthorized_try, bind, gets, storage_getItem, ret.
  rewrite Hshim, Hext3, Hflag, Hea. cbn [andb].
  unfold stored in Hnone. destruct (storage w3) as [m|]; [|done].
  destruct (storage_getItem_fault env); [done|]. simpl in Hnone. by rewrite Hnone.
Qed.

End Extension.

(** ** Over the relay *)

Section Relay.
Variable env : Env.
Variable cfg : Config.

(** Without [window.ronin] and with a relay provider at hand,
    [getProvider] answers it and only lowers [#isExtension]. *)
Lemma getProvider_relay switch w globals o :
  window w = Some globals -> win_ronin globals = None -> provider w = Some o ->
  getProvider_with env cfg switch None w =
    (Return (RelayProvider o), set_isExtension false w).
Proof.
  intros Hwin Hr Hp.
  unfold getProvider_with, ensure_provider, bind, the_window, modify, gets, ret.
  rewrite Hwin, Hr. simpl. rewrite Hp. simpl. by rewrite Hp.
Qed.

Lemma getChainId_over_the_relay w globals o :
  window w = Some globals -> win_ronin globals = None -> provider w = Some o ->
  getChainId env cfg w =
    (Return (Js.Number (relay_chainId (relay w))), set_isExtension false w).
Proof.
  intros Hwin Hr Hp. unfold getChainId, getProvider, bind.
  by rewrite (getProvider_relay _ w globals o Hwin Hr Hp).
Qed.

(** X13. Over the relay, with the provider built, [getChainId()] and
    [getAccount()] are answered from the provider's fields: the chain id is
    its [chainId], the account is [getAddress] of the first of its
    [accounts] (of [undefined] when it has none), no request is sent and
    nothing changes but [#isExtension], which is lowered. *)
Theorem relay_queries_read_the_provider w globals o :
  window w = Some globals -> win_ronin globals = None -> provider w = Some o ->
  getChainId env cfg w =
    (Return (Js.Number (relay_chainId (relay w))), set_isExtension false w) /\
  getAccount env cfg w =
    lift_result
      (getAddress env (default Js.Undefined (head (map Js.Str (accounts (relay w))))))
      (set_isExtension false w).
Proof.
  intros Hwin Hr Hp. unfold getChainId, getAccount, getProvider, bind.
  rewrite (getProvider_relay _ w globals o Hwin Hr Hp). done.
Qed.

Lemma gets_then {A B} (f : World -> A) (k : A -> Async B) w :
  bind (gets f) k w = k (f w) w.
Proof. done. Qed.

Lemma perform_then {A} e (k : Async A) w :
  bind (perform e) (fun _ => k) w = k (set_trace (trace w ++ [e]) w).
Proof. done. Qed.

Lemma perform_again {A} e (k : Async A) t w :
  bind (perform e) (fun _ => k) (set_trace t w) = k (set_trace (t ++ [e]) w).
Proof. done. Qed.

Lemma perform_last e t w :
  perform e (set_trace t w) = (Return tt, set_trace (t ++ [e]) w).
Proof. done. Qed.

Lemma removeListeners_runs w o :
  provider w = Some o ->
  removeListeners w =
    (Return tt, set_trace (trace w ++ relay_teardown (Some o)) w).
Proof.
  intros Hp. unfold removeListeners.
  rewrite gets_then, Hp, perform_then, !perform_again, perform_last.
  cbn [relay_teardown]. by rewrite <- !app_assoc.
Qed.

Lemma setupListeners_runs w o :
  provider w = Some o ->
  setupListeners w =
    (Return tt, set_trace (trace w ++ relay_teardown (Some o) ++ relay_setup) w).
Proof.
  intros Hp. unfold setupListeners. rewrite gets_then, Hp.
  unfold bind at 1.
  rewrite (removeListeners_runs w o Hp), !perform_again, perform_last.
  unfold relay_setup. by rewrite <- !app_assoc.
Qed.

Lemma relay_connect_returns o w u w' :
  provider_connect env (RelayProvider o) w = (Return u, w') ->
  exists st, relay_connect env (relay w) = inr st /\
    w' = set_relay st (set_trace (trace w ++ [RelayConnect]) w).
Proof.
  unfold provider_connect, bind, perform, modify. simpl.
  destruct (relay_connect env (relay w)) as [e|st]; [done|].
  intros [= _ <-]. eauto.
Qed.

Lemma relay_enable_returns o w v w' :
  provider_enable env (RelayProvider o) w = (Return v, w') ->
  exists accs st, relay_enable env (relay w) = inr (accs, st) /\
    w' = set_relay st (set_trace (trace w ++ [RelayEnable]) w).
Proof.
  unfold provider_enable, bind, perform, modify. simpl.
  destruct (relay_enable env (relay w)) as [e|[accs st]]; [done|].
  intros [= _ <-]. eauto.
Qed.

(** X14. A [connect()] that succeeds over the relay, the provider being
    built, registers its six listeners after removing them, then shakes
    hands only when the provider has no session: without a session it
    emits [message] with [connecting], calls the provider's [connect] and
    stores the ids of all configured chains as the requested chains; with a
    live session it does none of the three and leaves the store as it was.
    Either way it then calls [enable], emits nothing else, and leaves
    [#isExtension] lowered. *)
Theorem connect_over_the_relay_shakes_hands_once w globals o result w' :
  window w = Some globals -> win_ronin globals = None -> provider w = Some o ->
  connect env cfg w = (Return result, w') ->
  trace w' = trace w ++ relay_teardown (Some o) ++ relay_setup ++
    match session (relay w) with
    | None => [Emit "message" connecting; RelayConnect]
    | Some _ => []
    end ++ [RelayEnable] /\
  storage w' =
    match session (relay w) with
    | None =>
        insert REQUESTED_CHAINS_KEY (StoredChains (map chain_id (chains cfg))) <$>
          storage w
    | Some _ => storage w
    end /\
  isExtension w' = false /\ provider w' = Some o.
Proof.
  intros Hwin Hr Hp. unfold connect, try_catch.
  destruct (connect_try env cfg w) as [[res|e] w1] eqn:Htry;
    [|by rewrite connect_catch_spec].
  intros [= <- <-]. unfold connect_try in Htry.
  apply bind_returns in Htry as (p & wa & Hget & Htry).
  unfold getProvider in Hget.
  rewrite (getProvider_relay _ w globals o Hwin Hr Hp) in Hget.
  injection Hget as <- <-.
  apply bind_returns in Htry as (ext & wb & Hgets & Htry).
  injection Hgets as <- <-. cbn [isExtension set_isExtension] in Htry.
  apply bind_returns in Htry as (u1 & w2 & H1 & Htry).
  rewrite (setupListeners_runs _ o) in H1 by exact Hp. injection H1 as _ <-.
  apply bind_returns in Htry as (s & w2' & Hs & Htry).
  injection Hs as <- <-. cbn [relay set_trace set_isExtension] in Htry.
  apply bind_returns in Htry as (u2 & w3 & H2 & Htry).
  assert (window w3 = Some globals /\ provider w3 = Some o /\
          isExtension w3 = false /\
          trace w3 = trace w ++ relay_teardown (Some o) ++ relay_setup ++
            match session (relay w) with
            | None => [Emit "message" connecting; RelayConnect]
            | Some _ => []
            end /\
          storage w3 =
            match session (relay w) with
            | None =>
                insert REQUESTED_CHAINS_KEY
                  (StoredChains (map chain_id (chains cfg))) <$> storage w
            | Some _ => storage w
            end) as (Hw3 & Hp3 & He3 & Ht3 & Hs3).
  { destruct (session (relay w)).
    - injection H2 as _ <-. simpl. by rewrite ?app_nil_r.
    - apply bind_returns in H2 as (u3 & w4 & H3 & H2).
      apply perform_returns in H3 as ->.
      apply bind_returns in H2 as (u4 & w5 & H4 & H2).
      apply relay_connect_returns in H4 as (st & _ & ->).
      injection H2 as _ <-. simpl. by rewrite <- ?app_assoc. }
  apply bind_returns in Htry as (accs & w6 & H5 & Htry).
  apply relay_enable_returns in H5 as (l & st & _ & ->).
  apply bind_returns in Htry as (first & w7 & H6 & Htry).
  apply first_of_returns in H6 as ->.
  apply bind_returns in Htry as (address & w8 & H7 & Htry).
  apply lift_result_returns in H7 as [_ ->].
  apply bind_returns in Htry as (id & w9 & H8 & Htry).
  injection Htry as _ <-.
  pose proof (getChainId_over_the_relay
                (set_relay st (set_trace (trace w3 ++ [RelayEnable]) w3)) globals o
                Hw3 Hr Hp3) as Hid.
  rewrite Hid in H8. injection H8 as _ <-. simpl.
  rewrite Ht3, Hs3, Hp3. rewrite <- ?app_assoc. done.
Qed.

(** X15. A handshake that fails leaves no trace in the store.  Over the
    relay, the provider built and without a session, when the provider's
    [connect] rejects, [connect()] rejects with that value, wrapped as
    [UserRejected] when its message contains "user rejected"; [enable] is
    not called, the requested chains are not stored, and the six listeners
    registered before the handshake stay registered. *)
Theorem failed_handshake w globals o e :
  window w = Some globals -> win_ronin globals = None -> provider w = Some o ->
  session (relay w) = None -> relay_connect env (relay w) = inl e ->
  connect env cfg w =
    (Throw (if Js.test_i "user rejected" (message_text env e)
            then UserRejected e else e),
     set_trace (trace w ++ relay_teardown (Some o) ++ relay_setup ++
                [Emit "message" connecting; RelayConnect])
       (set_isExtension false w)).
Proof.
  intros Hwin Hr Hp Hs He.
  assert (connect_try env cfg w =
    (Throw e,
     set_trace (trace w ++ relay_teardown (Some o) ++ relay_setup ++
                [Emit "message" connecting; RelayConnect])
       (set_isExtension false w))) as Htry.
  { unfold connect_try, getProvider, bind.
    rewrite (getProvider_relay _ w globals o Hwin Hr Hp).
    unfold gets at 1. cbn [isExtension set_isExtension].
    rewrite (setupListeners_runs _ o) by exact Hp.
    unfold provider_session, provider_connect, emit, perform, modify, gets, bind.
    simpl. rewrite Hs. simpl. rewrite He. unfold set_trace. simpl.
    by rewrite <- !app_assoc. }
  unfold connect, try_catch. by rewrite Htry, connect_catch_spec.
Qed.

(** X16. The first [getProvider()] of a connector constructed on a page
    without the extension settles as the initialisation does: it rejects
    with what the import rejects with, or with what
    [EthereumProvider.init] rejects with; with no chain configured, or a
    first chain of id zero, it resolves to [undefined] and [init] is never
    called; otherwise it resolves to the provider [init] built.  The import
    is requested once and [init] called at most once. *)
Theorem first_getProvider store :
  let w := constructor (Some {| win_ronin := None |}) store in
  getProvider env cfg None w =
    let imported :=
      set_trace [ImportEthereumProvider]
        (fields (Some {| win_ronin := None |}) store) in
    match import_ethereum_provider env with
    | Some e =>
        (Throw e,
         set_initProviderPromise (Some 0%nat)
           (set_tasks [Settled (Some e)] imported))
    | None =>
        match init_args cfg (map chain_id (chains cfg)) with
        | None =>
            (Return NoProvider,
             set_initProviderPromise (Some 0%nat) (set_tasks [Settled None] imported))
        | Some args =>
            let called :=
              set_trace [ImportEthereumProvider; EthereumProviderInit args] imported in
            match EthereumProvider_init env args with
            | inl e =>
                (Throw e,
                 set_initProviderPromise (Some 0%nat)
                   (set_tasks [Settled (Some e)] called))
            | inr st =>
                (Return (RelayProvider 0),
                 set_initProviderPromise (Some 0%nat)
                   (set_tasks [Settled None]
                      (set_relay st (set_provider (Some 0%nat) called))))
            end
        end
    end.
Proof.
  destruct (import_ethereum_provider env) as [e|] eqn:Himport;
    [|destruct (init_args cfg (map chain_id (chains cfg))) as [args|] eqn:Hargs;
      [destruct (EthereumProvider_init env args) as [e|st] eqn:Hinit|]];
    unfold constructor, fields, getProvider, getProvider_with, ensure_provider,
      createProvider, initProvider, await, resume, bind, the_window, modify,
      gets, ret;
    cbn -[init_args];
    repeat (rewrite ?Himport, ?Hargs, ?Hinit; cbn -[init_args]); done.
Qed.

(** X17. Where no global [window] is declared, as on a server, every
    call that needs a provider rejects with the [ReferenceError] of reading
    [window], and does nothing: [getProvider], [connect], [getAccount] and
    [getChainId] reject with it as it is, [disconnect] too, without
    reaching its [finally], and [switchChain] of a configured chain with
    [SwitchChainFailed] around it.  [isAuthorized] answers [false]. *)
Theorem without_a_window w chainId :
  window w = None ->
  let e := ReferenceError "window is not defined" in
  getProvider env cfg chainId w = (Throw e, w) /\
  connect env cfg w = (Throw e, w) /\
  disconnect env cfg w = (Throw e, w) /\
  getAccount env cfg w = (Throw e, w) /\
  getChainId env cfg w = (Throw e, w) /\
  isAuthorized env cfg w = (Return false, w) /\
  (forall id, id ∈ map chain_id (chains cfg) ->
     switchChain env cfg id w = (Throw (SwitchChainFailed e), w)).
Proof.
  intros Hwin e.
  assert (forall switch c, getProvider_with env cfg switch c w = (Throw e, w)) as Hget.
  { intros switch c. unfold getProvider_with, bind, the_window. by rewrite Hwin. }
  assert (getAccount env cfg w = (Throw e, w)) as Hacc.
  { unfold getAccount, getProvider, bind. by rewrite Hget. }
  repeat split.
  - apply Hget.
  - unfold connect, try_catch, connect_try, getProvider, bind.
    by rewrite Hget, connect_catch_spec.
  - unfold disconnect, getProvider, bind. by rewrite Hget.
  - exact Hacc.
  - unfold getChainId, getProvider, bind. by rewrite Hget.
  - unfold isAuthorized, try_catch, isAuthorized_try, bind, gets, storage_getItem, ret.
    destruct (options_shimDisconnect cfg && isExtension w).
    + destruct (storage w) as [m|]; [|done].
      destruct (storage_getItem_fault env); [done|]. simpl.
      destruct (truthy_stored (m !! shimDisconnectKey)); [|done].
      simpl. by rewrite Hacc.
    + simpl. by rewrite Hacc.
  - intros id Hid. unfold switchChain.
    destruct (find _ (chains cfg)) as [c|] eqn:Hfind.
    + unfold try_catch, switch_try, bind. by rewrite Hget, switch_catch_spec.
    + exfalso. apply list_elem_of_fmap in Hid as (c & -> & Hc).
      apply list_elem_of_In in Hc.
      apply (find_none _ _ Hfind) in Hc. simpl in Hc. lia.
Qed.

End Relay.

(** ** The requests of [switchChain] *)

Section SwitchRequests.
Variable env : Env.
Variable cfg : Config.

Lemma getNamespaceChainsIds_returns w :
  exists l, getNamespaceChainsIds env w = (Return l, w).
Proof. unfold getNamespaceChainsIds. repeat case_match; eauto. Qed.

Lemma getNamespaceMethods_returns w :
  exists l, getNamespaceMethods w = (Return l, w).
Proof. unfold getNamespaceMethods. repeat case_match; eauto. Qed.

Lemma request_returns_sent p method params w v w' :
  request env p method params w = (Return v, w') ->
  trace w' = trace w ++ [sent p method params] /\ storage w' = storage w.
Proof.
  unfold request, bind, perform, modify, lift_result, throw, ret.
  destruct p as [|object|]; simpl; [| |done].
  - destruct (injected_request env method params); [done|]. by intros [= _ <-].
  - destruct (relay_request env _ method params) as [|[v' st]]; [done|].
    by intros [= _ <-].
Qed.

Lemma getRequestedChainsIds_returns w v w' :
  getRequestedChainsIds env w = (Return v, w') ->
  v = requested_chains w /\ w' = w.
Proof.
  unfold getRequestedChainsIds, requested_chains, stored, storage_getItem, bind, ret.
  destruct (storage w) as [m|]; simpl.
  - destruct (storage_getItem_fault env); [done|]. by intros [= <- <-].
  - by intros [= <- <-].
Qed.

Lemma push_returns v chainId w v' w' :
  push v chainId w = (Return v', w') ->
  exists ids, v = StoredChains ids /\ v' = StoredChains (ids ++ [chainId]) /\ w' = w.
Proof. destruct v as [b|ids]; [done|]. intros [= <- <-]. eauto. Qed.

(** What a chain switch that succeeds has done, from the provider it
    acquired on. *)
Lemma switchChain_sends chainId w chain w' :
  switchChain env cfg chainId w = (Return chain, w') ->
  exists p w1 hex,
    getProvider_with env cfg (fun _ => ret tt) None w = (Return p, w1) /\
    numberToHex env chainId = inr hex /\
    let switch :=
      sent p "wallet_switchEthereumChain" [Js.Obj [("chainId", Js.Str hex)]] in
    if adds_chain env chainId w1
    then
      exists ids, requested_chains w1 = StoredChains ids /\
        trace w' = trace w1 ++
          [sent p ADD_ETH_CHAIN_METHOD (add_chain_params hex chain); switch] /\
        storage w' =
          insert REQUESTED_CHAINS_KEY (StoredChains (ids ++ [chainId])) <$>
            storage w1
    else trace w' = trace w1 ++ [switch] /\ storage w' = storage w1.
Proof.
  unfold switchChain. destruct (find _ (chains cfg)) as [c|] eqn:Hfind; [|done].
  unfold try_catch.
  destruct (switch_try env cfg chainId c w) as [[c'|x] wz] eqn:Htry;
    [|by rewrite switch_catch_spec].
  intros [= -> ->]. apply find_some in Hfind as [_ Hid]. apply Z.eqb_eq in Hid.
  unfold switch_try in Htry.
  apply bind_returns in Htry as (p & w1 & Hget & Htry).
  destruct (getNamespaceChainsIds_returns w1) as [nc Hnc].
  destruct (getNamespaceMethods_returns w1) as [nm Hnm].
  apply bind_returns in Htry as (nc' & wb & Hnc' & Htry).
  rewrite Hnc in Hnc'. injection Hnc' as <- <-.
  apply bind_returns in Htry as (nm' & wc & Hnm' & Htry).
  rewrite Hnm in Hnm'. injection Hnm' as <- <-.
  apply bind_returns in Htry as (u & wd & Hadd & Htry).
  apply bind_returns in Htry as (hex & we & Hhex & Htry).
  apply lift_result_returns in Hhex as [Hhex ->].
  apply bind_returns in Htry as (v & wf & Hreq & Htry).
  injection Htry as <- <-.
  apply request_returns_sent in Hreq as [Ht Hs].
  exists p, w1, hex. split; [done|]. split; [done|].
  unfold adds_chain. rewrite Hnc, Hnm.
  destruct (negb (includes_number nc chainId) &&
            includes_string nm ADD_ETH_CHAIN_METHOD).
  - apply bind_returns in Hadd as (hex' & w2 & Hhex' & Hadd).
    apply lift_result_returns in Hhex' as [Hhex' ->].
    rewrite Hid, Hhex in Hhex'. injection Hhex' as <-.
    apply bind_returns in Hadd as (v' & w3 & Hreq' & Hadd).
    apply request_returns_sent in Hreq' as [Ht' Hs'].
    apply bind_returns in Hadd as (rc & w4 & Hrc & Hadd).
    apply getRequestedChainsIds_returns in Hrc as [-> ->].
    apply bind_returns in Hadd as (rc' & w5 & Hpush & Hadd).
    apply push_returns in Hpush as (ids & Hids & -> & ->).
    injection Hadd as _ <-. exists ids. split.
    { rewrite <- Hids. unfold requested_chains, stored. by rewrite Hs'. }
    rewrite Ht, Hs. simpl. rewrite Ht', Hs'. by rewrite <- app_assoc.
  - injection Hadd as _ <-. by rewrite Ht, Hs.
Qed.

Lemma adds_chain_frame chainId w w1 :
  provider w1 = provider w -> relay w1 = relay w ->
  adds_chain env chainId w1 = adds_chain env chainId w.
Proof.
  intros Hp Hr. unfold adds_chain, getNamespaceChainsIds, getNamespaceMethods.
  rewrite Hp, Hr. destruct (provider w); [|done].
  by destruct (session (relay w) ≫= namespaces).
Qed.

(** X18. A successful [switchChain(chainId)] over the relay, the provider
    built, sends [wallet_switchEthereumChain] with [numberToHex(chainId)]
    as its last request.  When the session has not approved the chain and
    lists [wallet_addEthereumChain], it first sends that request with the
    chain's parameters and then appends [chainId] to the requested chains
    of the store; otherwise the switch is its only request and the store is
    left as it was. *)
Theorem switchChain_over_the_relay chainId w globals o chain w' :
  window w = Some globals -> win_ronin globals = None -> provider w = Some o ->
  switchChain env cfg chainId w = (Return chain, w') ->
  exists hex,
    numberToHex env chainId = inr hex /\
    let switch :=
      RelayRequest "wallet_switchEthereumChain" [Js.Obj [("chainId", Js.Str hex)]] in
    if adds_chain env chainId w
    then
      exists ids, requested_chains w = StoredChains ids /\
        trace w' = trace w ++
          [RelayRequest ADD_ETH_CHAIN_METHOD (add_chain_params hex chain); switch] /\
        storage w' =
          insert REQUESTED_CHAINS_KEY (StoredChains (ids ++ [chainId])) <$>
            storage w
    else trace w' = trace w ++ [switch] /\ storage w' = storage w.
Proof.
  intros Hwin Hr Hp H.
  apply switchChain_sends in H as (p & w1 & hex & Hget & Hhex & H).
  rewrite (getProvider_relay env cfg _ w globals o Hwin Hr Hp) in Hget.
  injection Hget as <- <-. exists hex. split; [done|].
  rewrite (adds_chain_frame chainId w (set_isExtension false w)) in H by done.
  exact H.
Qed.

(** X19. Through the extension, a successful [switchChain(chainId)] sends
    its requests to the extension, and decides whether to add the chain
    first by the session of the relay provider, if one was built: with no
    relay provider it never asks to add a chain, sends the one request
    [wallet_switchEthereumChain] and leaves the store as it was. *)
Theorem switchChain_through_the_extension chainId w globals r chain w' :
  window w = Some globals -> win_ronin globals = Some r ->
  switchChain env cfg chainId w = (Return chain, w') ->
  exists hex,
    numberToHex env chainId = inr hex /\
    let switch :=
      InjectedRequest "wallet_switchEthereumChain"
        [Js.Obj [("chainId", Js.Str hex)]] in
    (provider w = None -> adds_chain env chainId w = false) /\
    if adds_chain env chainId w
    then
      exists ids, requested_chains w = StoredChains ids /\
        trace w' = trace w ++
          [InjectedRequest ADD_ETH_CHAIN_METHOD (add_chain_params hex chain);
           switch] /\
        storage w' =
          insert REQUESTED_CHAINS_KEY (StoredChains (ids ++ [chainId])) <$>
            storage w
    else trace w' = trace w ++ [switch] /\ storage w' = storage w.
Proof.
  intros Hwin Hr H.
  apply switchChain_sends in H as (p & w1 & hex & Hget & Hhex & H).
  destruct (getProvider_injected env cfg (fun _ => ret tt) None w globals r Hwin Hr)
    as (wa & r1 & Hget' & _ & _ & _ & Hta & Hsa & Hpa & Hra).
  rewrite Hget' in Hget. injection Hget as <- <-. exists hex. split; [done|].
  rewrite (adds_chain_frame chainId w wa) in H by done.
  split.
  { intros Hnone. unfold adds_chain, getNamespaceChainsIds, getNamespaceMethods.
    by rewrite Hnone. }
  unfold requested_chains, stored in *. rewrite Hta, Hsa in H. exact H.
Qed.

End SwitchRequests.

(** ** The handlers of changes *)

Section Handlers.
Variable env : Env.
Variable cfg : Config.

(** X20. A handler of changes emits one event when its query succeeds and
    none when it fails: [onAccountsChanged] emits [change] with the account
    [getAccount] answered ([disconnect] for an empty one), [onChainChanged]
    emits [change] with the chain id [getChainId] answered and whether it
    is unsupported; when the query rejects, the handler rejects with the
    same value and nothing is emitted. *)
Theorem change_handlers_emit_once w :
  emitted (snd (onAccountsChanged env cfg w)) =
    emitted w ++
    match fst (getAccount env cfg w) with
    | Return address =>
        [if Js.truthy_string address
         then Emit "change" (Js.Obj [("account", Js.Str address)])
         else Emit "disconnect" Js.Undefined]
    | Throw _ => []
    end /\
  emitted (snd (onChainChanged env cfg w)) =
    emitted w ++
    match fst (getChainId env cfg w) with
    | Return id =>
        [Emit "change"
           (Js.Obj [("chain", chain_payload (id, isChainUnsupported cfg id))])]
    | Throw _ => []
    end /\
  (forall e, fst (getAccount env cfg w) = Throw e ->
     fst (onAccountsChanged env cfg w) = Throw e) /\
  (forall e, fst (getChainId env cfg w) = Throw e ->
     fst (onChainChanged env cfg w) = Throw e).
Proof.
  pose proof (getAccount_silent env cfg w) as Ha.
  pose proof (getChainId_silent env cfg w) as Hc.
  unfold unchanged in Ha, Hc.
  unfold onAccountsChanged, onChainChanged, bind, emit, perform, modify.
  destruct (getAccount env cfg w) as [[address|e] w1];
    destruct (getChainId env cfg w) as [[id|e'] w2]; cbn [fst snd] in *;
    repeat split; try done; try (intros ? [= <-]; done);
    try (by rewrite app_nil_r);
    try (destruct (Js.truthy_string address)); cbn [fst snd];
    by rewrite emitted_emit, ?Ha, ?Hc.
Qed.

End Handlers.

(** ** The requested chains *)

Section RequestedChains.
Variable env : Env.

(** X21. The requested chains round-trip through the store: what
    [#setRequestedChainsIds] stores, [#getRequestedChainsIds] answers, when
    the store can be read; a connector without a store answers the empty
    list whatever was set, and setting changes nothing else. *)
Theorem requested_chains_round_trip ids w :
  let w' := snd (setRequestedChainsIds (StoredChains ids) w) in
  (is_Some (storage w) -> storage_getItem_fault env = None ->
   getRequestedChainsIds env w' = (Return (StoredChains ids), w')) /\
  (storage w = None ->
   w' = w /\ getRequestedChainsIds env w' = (Return (StoredChains []), w')) /\
  (forall key, key <> REQUESTED_CHAINS_KEY -> stored key w' = stored key w).
Proof.
  unfold setRequestedChainsIds, storage_setItem, modify, getRequestedChainsIds,
    storage_getItem, bind, ret, stored.
  cbn [snd storage set_storage]. repeat split.
  - intros [m Hm] Hfault. rewrite Hm, Hfault. simpl. by rewrite lookup_insert_eq.
  - destruct w. simpl in *. by subst.
  - by rewrite H.
  - intros key Hkey. destruct (storage w) as [m|]; simpl; [|done].
    by rewrite lookup_insert_ne.
Qed.

End RequestedChains.

(** ** Concrete runs of the further properties *)

(** A switch and the relay's [disconnect] event leave the shim flag of a
    former session alone. *)
Lemma writes_are_confined_witness :
  stored shimDisconnectKey
    (after_all env cfg [CallSwitchChain 2020; FireDisconnect] returning_browser) =
    Some (StoredBool true) /\
  storage (after_all env cfg [CallGetAccount; CallIsAuthorized; LoopResume 0]
             returning_browser) = Some store_after_extension.
Proof.
  destruct (writes_are_confined env cfg [CallSwitchChain 2020; FireDisconnect]
              shimDisconnectKey returning_browser) as [Hkey _].
  destruct (writes_are_confined env cfg
              [CallGetAccount; CallIsAuthorized; LoopResume 0]
              shimDisconnectKey returning_browser) as [_ Hstore].
  split.
  - rewrite Hkey; [reflexivity|].
    repeat constructor; intros H; apply list_elem_of_singleton in H;
      by apply shim_key_apart.
  - rewrite Hstore; [reflexivity|]. by repeat constructor.
Defined.

(** Queries, a switch and a resumption after a [connect] over the relay: the
    one event emitted is the one [connect] emitted. *)
Lemma queries_and_switches_emit_nothing_witness :
  emitted (after_all env cfg
             [CallGetAccount; CallSwitchChain 2020; LoopResume 0; CallIsAuthorized]
             connected_browser) =
    [Emit "message" connecting].
Proof.
  rewrite (queries_and_switches_emit_nothing env cfg); [reflexivity|].
  by repeat constructor.
Defined.


(** A refusal both patterns match, and a thrown string. *)
Lemma switch_rejection_is_connect_rejection_witness :
  fst (connect_catch env refused browser) = Throw (UserRejected refused) /\
  fst (connect_catch env (ThrownString "User rejected request") browser) =
    Throw (ThrownString "User rejected request").
Proof.
  destruct (switch_rejection_is_connect_rejection env refused browser browser)
    as [Hsame Hstring].
  split; [apply Hsame; reflexivity|apply Hstring].
Defined.

(** A switch to the configured chain, through the extension. *)
Lemma switchChain_answers_the_configured_chain_witness :
  ronin ∈ chains cfg /\ chain_id ronin = 2020.
Proof.
  destruct (switchChain_answers_the_configured_chain env cfg 2020
              browser_with_extension ronin
              (snd (switchChain env cfg 2020 browser_with_extension)))
    as (_ & Hin & Hid); [by vm_compute|done].
Defined.

(** The import failed once; the next [getProvider] rejects the same way. *)
Lemma failed_initialisation_is_not_retried_witness :
  getProvider no_network cfg None offline_browser =
    (Throw offline, set_isExtension false offline_browser).
Proof.
  by apply (failed_initialisation_is_not_retried no_network cfg None
              offline_browser page 0%nat offline).
Defined.

(** The second [getProvider] of a page without the extension. *)
Lemma getProvider_again_witness :
  getProvider env cfg None built_browser = (Return (RelayProvider 0), built_browser).
Proof.
  apply (getProvider_again env cfg browser). by vm_compute.
Defined.

(** A CAIP-2 chain id, and a bare namespace. *)
Lemma reference_of_chain_id_witness :
  reference_of "eip155:2020" = "2020" /\ reference_of "eip155" = "".
Proof.
  destruct (reference_of_chain_id "eip155" "2020") as [Href Hnone]; [reflexivity|].
  split; [by apply Href|exact Hnone].
Defined.

(** A [connect] through the extension. *)
Lemma connect_through_the_extension_witness :
  let after := connect env cfg browser_with_extension in
  stored shimDisconnectKey (snd after) = Some (StoredBool true) /\
  emitted (snd after) =
    [Emit "message" connecting;
     Emit "connect"
       (Js.Obj [("account", Js.Str wallet_account);
                ("chain", chain_payload (Js.Number (Js.Num 2020), false))])].
Proof.
  intros after.
  destruct (connect_through_the_extension env cfg browser_with_extension
              page_with_extension
              {| provider_on := false; provider_removeListener := false |}
              {| account := wallet_account;
                 chain := (Js.Number (Js.Num 2020), false) |}
              (snd after))
    as (Htrace & Hstore & _); [reflexivity..|by vm_compute|].
  split.
  - unfold stored. by rewrite Hstore.
  - unfold emitted. by rewrite Htrace.
Defined.

(** The user declines the request for accounts. *)
Lemma failed_connect_through_the_extension_witness :
  let after := connect declining_wallet cfg browser_with_extension in
  fst after = Throw (UserRejected declined) /\
  storage (snd after) = Some ∅ /\
  emitted (snd after) = [Emit "message" connecting].
Proof.
  intros after.
  destruct (failed_connect_through_the_extension declining_wallet cfg
              browser_with_extension page_with_extension
              {| provider_on := false; provider_removeListener := false |}
              (UserRejected declined) (snd after))
    as (Hstore & Hemitted); [reflexivity..|by vm_compute|].
  split; [by vm_compute|]. by rewrite Hstore, Hemitted.
Defined.

(** A [connect] through the extension, a [disconnect], then [isAuthorized]. *)
Lemma unauthorized_after_disconnect_witness :
  exists w1,
    disconnect env cfg (snd (connect env cfg browser_with_extension)) =
      (Return tt, w1) /\
    isAuthorized env cfg w1 = (Return false, w1).
Proof.
  by apply (unauthorized_after_disconnect env cfg
              (snd (connect env cfg browser_with_extension))
              page_with_listening_extension patched).
Defined.

(** The queries of a connector in a session over the relay. *)
Lemma relay_queries_read_the_provider_witness :
  fst (getChainId env cfg connected_browser) = Return (Js.Number (Js.Num 2020)) /\
  fst (getAccount env cfg connected_browser) = Return wallet_account /\
  trace (snd (getAccount env cfg connected_browser)) = trace connected_browser.
Proof.
  destruct (relay_queries_read_the_provider env cfg connected_browser page 0%nat)
    as [Hchain Haccount]; [reflexivity..|].
  rewrite Hchain, Haccount. by vm_compute.
Defined.

(** A second [connect] over the relay, the session being live. *)
Lemma connect_over_the_relay_shakes_hands_once_witness :
  let again := connect env cfg connected_browser in
  trace (snd again) =
    trace connected_browser ++ relay_teardown (Some 0%nat) ++ relay_setup ++
    [RelayEnable] /\
  storage (snd again) = storage connected_browser.
Proof.
  intros again.
  destruct (connect_over_the_relay_shakes_hands_once env cfg connected_browser page
              0%nat
              {| account := wallet_account;
                 chain := (Js.Number (Js.Num 2020), false) |}
              (snd again))
    as (Htrace & Hstore & _); [reflexivity..|by vm_compute|].
  split; [exact Htrace|exact Hstore].
Defined.

(** The user declines the handshake. *)
Lemma failed_handshake_witness :
  fst (connect declining_relay cfg built_browser) = Throw (UserRejected declined) /\
  storage (snd (connect declining_relay cfg built_browser)) = Some ∅.
Proof.
  rewrite (failed_handshake declining_relay cfg built_browser page 0%nat declined)
    by reflexivity.
  by vm_compute.
Defined.

(** The connector of a server. *)
Lemma without_a_window_witness :
  connect env cfg server = (Throw (ReferenceError "window is not defined"), server) /\
  isAuthorized env cfg server = (Return false, server).
Proof.
  destruct (without_a_window env cfg server None)
    as (_ & Hconnect & _ & _ & _ & Hauthorized & _); [reflexivity|].
  split; [exact Hconnect|exact Hauthorized].
Defined.

(** A switch to a chain the session has not approved, the wallet letting
    chains be added. *)
Lemma switchChain_over_the_relay_witness :
  let after := switchChain env two_chains 2021 permissive_browser in
  trace (snd after) =
    trace permissive_browser ++
    [RelayRequest ADD_ETH_CHAIN_METHOD (add_chain_params "0x7e5" saigon);
     RelayRequest "wallet_switchEthereumChain"
       [Js.Obj [("chainId", Js.Str "0x7e5")]]] /\
  stored REQUESTED_CHAINS_KEY (snd after) = Some (StoredChains [2020; 2021; 2021]).
Proof.
  intros after.
  destruct (switchChain_over_the_relay env two_chains 2021 permissive_browser page
              0%nat saigon (snd after))
    as (hex & Hhex & H); [reflexivity..|by vm_compute|].
  injection Hhex as <-.
  change (adds_chain env 2021 permissive_browser) with true in H.
  destruct H as (ids & Hids & Htrace & Hstore).
  injection Hids as <-. split; [exact Htrace|].
  unfold stored. rewrite Hstore. by vm_compute.
Defined.

(** A switch through the extension, no relay provider being built. *)
Lemma switchChain_through_the_extension_witness :
  let after := switchChain env cfg 2020 browser_with_extension in
  trace (snd after) =
    [InjectedRequest "wallet_switchEthereumChain"
       [Js.Obj [("chainId", Js.Str "0x7e4")]]] /\
  storage (snd after) = Some ∅.
Proof.
  intros after.
  destruct (switchChain_through_the_extension env cfg 2020 browser_with_extension
              page_with_extension
              {| provider_on := false; provider_removeListener := false |}
              ronin (snd after))
    as (hex & Hhex & _ & H); [reflexivity..|by vm_compute|].
  injection Hhex as <-.
  change (adds_chain env 2020 browser_with_extension) with false in H.
  destruct H as [Htrace Hstore]. split; [exact Htrace|exact Hstore].
Defined.

(** With a store, and without one. *)
Lemma requested_chains_round_trip_witness :
  getRequestedChainsIds env
    (snd (setRequestedChainsIds (StoredChains [2020; 2021]) browser)) =
    (Return (StoredChains [2020; 2021]),
     snd (setRequestedChainsIds (StoredChains [2020; 2021]) browser)) /\
  fst (getRequestedChainsIds env
         (snd (setRequestedChainsIds (StoredChains [2020]) server))) =
    Return (StoredChains []).
Proof.
  destruct (requested_chains_round_trip env [2020; 2021] browser) as (Hstored & _).
  destruct (requested_chains_round_trip env [2020] server) as (_ & Hnone & _).
  split.
  - apply Hstored; [by eexists|reflexivity].
  - destruct Hnone as [_ ->]; reflexivity.
Defined.
